(** * rosmoodmap: bouncing thumbnails

    A shallow embedding of the three versions of the page script
    (script.js and its two reworked copies) and the properties of the
    motion engine that the design document states about them.

    Numbers.  A JavaScript number that holds a pixel quantity is modelled
    as a rational [Q]; the result of [parseFloat] is an [option Q] whose
    [None] is NaN.  Comparisons, [Math.max]/[Math.min] and negation are
    exact on doubles.  Sums and differences are rounded: the loops are
    given twice, with exact sums ([animate]) and with the sum and the
    difference as parameters ([animateWith]), the first being the second
    at the exact operations.  What depends only on the order of the
    numbers is stated of the first; what depends on the branch an update
    takes is stated of the second, in terms of the sums as computed.

    The DOM.  An element is seen through what the script reads and writes:
    the numeric reading of its inline [left]/[top] style, and the layout
    figures the browser reports for it (bounding rectangle, offset size). *)

From Stdlib Require Import QArith Qminmax Qabs Lqa Lia String.
From stdpp Require Import base list.

Open Scope Q_scope.

(** ** JavaScript numbers as used by the script *)

Module JS.

(** The value produced by [parseFloat]: [None] is NaN. *)
Definition number := option Q.

(** [x == 0] as a boolean (the only finite falsy number, up to sign). *)
Definition is_zero (x : Q) : bool := Qeq_bool x 0.

(** [a || b] where [a] comes from [parseFloat] and [b] is a number:
    NaN and 0 are falsy. *)
Definition or_else (a : number) (b : Q) : Q :=
  match a with
  | Some x => if is_zero x then b else x
  | None => b
  end.

(** [a || b] on two plain numbers. *)
Definition or_num (a b : Q) : Q := if is_zero a then b else a.

(** [a <= b] and [a >= b] as JavaScript evaluates them on numbers. *)
Definition le (a b : Q) : bool := Qle_bool a b.
Definition ge (a b : Q) : bool := Qle_bool b a.
Definition lt (a b : Q) : bool := negb (Qle_bool b a).

End JS.

(** ** clamp

<<
function clamp(n, min, max) {
  return Math.max(min, Math.min(max, n));
}
>> *)

Definition clamp (n min max : Q) : Q := Qmax min (Qmin max n).

(** ** The page as the script sees it *)

(** [getBoundingClientRect()] *)
Record DOMRect := {
  rect_left : Q;
  rect_top : Q;
  rect_width : Q;
  rect_height : Q
}.

(** A [.bouncing-image] anchor.  [style_left]/[style_top] are what
    [parseFloat(img.style.left)] and [parseFloat(img.style.top)] return
    ([None] when the inline style is unset or does not start with a
    number); the remaining fields are the layout figures the browser
    currently reports. *)
Record Element := {
  style_left : JS.number;
  style_top : JS.number;
  bounding : DOMRect;
  offsetWidth : Q;
  offsetHeight : Q
}.

(** One entry of the [velocities] array. *)
Record Velocity := {
  dx : Q;
  dy : Q;
  paused : bool
}.

(** [window.innerWidth] and [window.innerHeight]. *)
Record Window := {
  innerWidth : Q;
  innerHeight : Q
}.

(** [img.style.left = `${left}px`; img.style.top = `${top}px`;] with both
    numbers finite. *)
Definition set_position (img : Element) (l t : Q) : Element :=
  {| style_left := Some l;
     style_top := Some t;
     bounding := bounding img;
     offsetWidth := offsetWidth img;
     offsetHeight := offsetHeight img |}.

(** The same assignment when a coordinate may be NaN: the text [NaNpx] is
    not a length, the browser drops the declaration and the style keeps
    its value, which did not parse to a number in the first place. *)
Definition set_position_nan (img : Element) (l t : JS.number) : Element :=
  {| style_left := l;
     style_top := t;
     bounding := bounding img;
     offsetWidth := offsetWidth img;
     offsetHeight := offsetHeight img |}.

(** [velocity.dx *= -1] *)
Definition flip (d : Q) : Q := d * -1.

(** ** BoundsClamp: clampAllPositionsToViewport

<<
const rect = img.getBoundingClientRect();
const w = rect.width || img.offsetWidth;
const h = rect.height || img.offsetHeight;
let left = parseFloat(img.style.left) || rect.left || 0;
let top = parseFloat(img.style.top) || rect.top || 0;
const maxLeft = Math.max(0, window.innerWidth - w);
const maxTop = Math.max(0, window.innerHeight - h);
left = clamp(left, 0, maxLeft);
top = clamp(top, 0, maxTop);
>> *)

Definition read_left (img : Element) : Q :=
  JS.or_num (JS.or_else (style_left img) (rect_left (bounding img))) 0.

Definition read_top (img : Element) : Q :=
  JS.or_num (JS.or_else (style_top img) (rect_top (bounding img))) 0.

Definition clamp_width (img : Element) : Q :=
  JS.or_num (rect_width (bounding img)) (offsetWidth img).

Definition clamp_height (img : Element) : Q :=
  JS.or_num (rect_height (bounding img)) (offsetHeight img).

(** The position map of BoundsClamp on one axis: the coordinate [p] of a
    Body of extent [size] in a viewport of extent [view]. *)
Definition clampAxis (view size p : Q) : Q :=
  clamp p 0 (Qmax 0 (view - size)).

Definition clampElement (win : Window) (img : Element) : Element :=
  let w := clamp_width img in
  let h := clamp_height img in
  let left0 := read_left img in
  let top0 := read_top img in
  let left' := clampAxis (innerWidth win) w left0 in
  let top' := clampAxis (innerHeight win) h top0 in
  set_position img left' top'.

Definition clampAllPositionsToViewport (win : Window) (images : list Element)
  : list Element :=
  map (clampElement win) images.

(** ** MotionEngine, clamping variant (the animate of the reworked script)

<<
const w = rect.width;  const h = rect.height;
let left = parseFloat(img.style.left) || rect.left || 0;
let top = parseFloat(img.style.top) || rect.top || 0;
left += velocity.dx;  top += velocity.dy;
const maxLeft = Math.max(0, window.innerWidth - w);
if (left <= minLeft) { left = minLeft; velocity.dx *= -1; }
else if (left >= maxLeft) { left = maxLeft; velocity.dx *= -1; }
>> *)

Definition clampStepAxis (view size pos d : Q) : Q * Q :=
  let pos := pos + d in
  let minPos := 0 in
  let maxPos := Qmax 0 (view - size) in
  if JS.le pos minPos then (minPos, flip d)
  else if JS.ge pos maxPos then (maxPos, flip d)
  else (pos, d).

Definition animateClamping (win : Window) (img : Element) (velocity : Velocity)
  : Element * Velocity :=
  let rect := bounding img in
  let w := rect_width rect in
  let h := rect_height rect in
  let '(left', dx') := clampStepAxis (innerWidth win) w (read_left img) (dx velocity) in
  let '(top', dy') := clampStepAxis (innerHeight win) h (read_top img) (dy velocity) in
  (set_position img left' top',
   {| dx := dx'; dy := dy'; paused := paused velocity |}).

(** ** MotionEngine, reflect-only variant (script.js and the copy that
    keeps its loop)

<<
let left = parseFloat(img.style.left);
let top = parseFloat(img.style.top);
left += velocity.dx;  top += velocity.dy;
if (left <= 0 || left + rect.width >= window.innerWidth) velocity.dx *= -1;
if (top <= 0 || top + rect.height >= window.innerHeight) velocity.dy *= -1;
>>
    A NaN coordinate stays NaN, every comparison with it is false. *)

Definition reflectStepAxis (view size : Q) (pos : JS.number) (d : Q)
  : JS.number * Q :=
  match pos with
  | None => (None, d)
  | Some p =>
      let p := p + d in
      (Some p, if JS.le p 0 || JS.ge (p + size) view then flip d else d)
  end.

Definition animateReflecting (win : Window) (img : Element) (velocity : Velocity)
  : Element * Velocity :=
  let rect := bounding img in
  let '(left', dx') :=
    reflectStepAxis (innerWidth win) (rect_width rect) (style_left img) (dx velocity) in
  let '(top', dy') :=
    reflectStepAxis (innerHeight win) (rect_height rect) (style_top img) (dy velocity) in
  (set_position_nan img left' top',
   {| dx := dx'; dy := dy'; paused := paused velocity |}).

(** ** The frame loop over the roster

<<
images.forEach((img, index) => {
  const velocity = velocities[index];
  if (!velocity || velocity.paused) return;
  ...                       // body: moves img, may flip velocity.dx/dy
});
>>
    The velocity objects are mutated in place, which is an update of the
    array at [index]. *)

Section ForEach.

Variable body : Element -> Velocity -> Element * Velocity.

(** One iteration whose [velocities[index]] is the object [velocity]. *)
Definition visit (index : nat) (img : Element) (velocity : Velocity)
    (velocities : list Velocity) : Element * list Velocity :=
  if paused velocity then (img, velocities)
  else
    let '(img', velocity') := body img velocity in
    (img', <[index := velocity']> velocities).

(** The loop of the two reworked scripts: an [undefined] entry is
    skipped by the [!velocity] test. *)
Fixpoint forEachGuarded (index : nat) (images : list Element)
    (velocities : list Velocity) : list Element * list Velocity :=
  match images with
  | [] => ([], velocities)
  | img :: rest =>
      let '(img', velocities') :=
        match velocities !! index with
        | None => (img, velocities)
        | Some velocity => visit index img velocity velocities
        end in
      let '(rest', velocities'') := forEachGuarded (S index) rest velocities' in
      (img' :: rest', velocities'')
  end.

(** What a call leaves behind: it returned, or a TypeError left the
    loop at some element. *)
Inductive outcome (A : Type) : Type :=
| Returned (a : A)
| Threw (a : A).

(** The loop of script.js has no [!velocity] test: reading
    [velocity.paused] of [undefined] throws and the remaining elements
    are not visited. *)
Fixpoint forEachUnguarded (index : nat) (images : list Element)
    (velocities : list Velocity) : outcome (list Element * list Velocity) :=
  match images with
  | [] => Returned _ ([], velocities)
  | img :: rest =>
      match velocities !! index with
      | None => Threw _ (img :: rest, velocities)
      | Some velocity =>
          let '(img', velocities') := visit index img velocity velocities in
          match forEachUnguarded (S index) rest velocities' with
          | Returned _ (rest', velocities'') => Returned _ (img' :: rest', velocities'')
          | Threw _ (rest', velocities'') => Threw _ (img' :: rest', velocities'')
          end
      end
  end.

(** The effect of the loop on one element and on one roster entry,
    read off the state before the loop. *)
Definition moved (velocities : list Velocity) (index : nat) (img : Element)
  : Element :=
  match velocities !! index with
  | Some velocity => if paused velocity then img else (body img velocity).1
  | None => img
  end.

Definition bounced (images : list Element) (index : nat) (velocity : Velocity)
  : Velocity :=
  match images !! index with
  | Some img => if paused velocity then velocity else (body img velocity).2
  | None => velocity
  end.

End ForEach.

Arguments Returned {A} a.
Arguments Threw {A} a.

(** ** Pointer handlers

<<
img.addEventListener('mouseenter', () => {
  velocities.forEach((v, i) => { v.paused = (i === index); });
});
img.addEventListener('mouseleave', () => {
  velocities[index].paused = false;
});
img.addEventListener('touchstart', (e) => {
  velocities.forEach((v, i) => { v.paused = (i === index); });
}, {passive: true});
>> *)

Definition set_paused (b : bool) (v : Velocity) : Velocity :=
  {| dx := dx v; dy := dy v; paused := b |}.

Definition mouseenter (index : nat) (velocities : list Velocity) : list Velocity :=
  imap (fun i v => set_paused (Nat.eqb i index) v) velocities.

Definition touchstart (index : nat) (velocities : list Velocity) : list Velocity :=
  imap (fun i v => set_paused (Nat.eqb i index) v) velocities.

(** [None] is the TypeError of assigning to a property of [undefined]. *)
Definition mouseleave (index : nat) (velocities : list Velocity)
  : option (list Velocity) :=
  match velocities !! index with
  | Some v => Some (<[index := set_paused false v]> velocities)
  | None => None
  end.

(** ** The three versions of the script *)

Inductive version :=
| Original   (* script.js *)
| Parked     (* the copy that parks the anchors off screen until sizes are known *)
| Clamping.  (* the copy whose animate clamps to the boundary *)

Definition baseSpeed (ver : version) : Q :=
  match ver with
  | Original | Parked => 1
  | Clamping => 0.6
  end.

Definition speedRange (ver : version) : Q :=
  match ver with
  | Original | Parked => 0.5
  | Clamping => 0.9
  end.

(** ** PlacementInitializer

    [rnd k] is the value of the [k]-th call of [Math.random()]. *)

Section Initialize.

Variable ver : version.
Variable win : Window.
Variable rnd : nat -> Q.

(** [(Math.random() < 0.5 ? -1 : 1)] *)
Definition sign (r : Q) : Q := if JS.lt r 0.5 then -1 else 1.

(** [(Math.random() < 0.5 ? -1 : 1) * (baseSpeed + Math.random() * range)] *)
Definition speed (k : nat) : Q :=
  sign (rnd k) * (baseSpeed ver + rnd (k + 1) * speedRange ver).

(** [img.offsetWidth || img.getBoundingClientRect().width || 50] *)
Definition placed_width (img : Element) : Q :=
  JS.or_num (JS.or_num (offsetWidth img) (rect_width (bounding img))) 50.

Definition placed_height (img : Element) : Q :=
  JS.or_num (JS.or_num (offsetHeight img) (rect_height (bounding img))) 50.

(** The range the start position is drawn from. *)
Definition spanLeft (img : Element) : Q :=
  match ver with
  | Original => innerWidth win - rect_width (bounding img)
  | Parked | Clamping => Qmax 1 (innerWidth win - placed_width img - 1)
  end.

Definition spanTop (img : Element) : Q :=
  match ver with
  | Original => innerHeight win - rect_height (bounding img)
  | Parked | Clamping => Qmax 1 (innerHeight win - placed_height img - 1)
  end.

(** One iteration of the initialising loop; it calls [Math.random()]
    six times, the first being call number [k]. *)
Definition initializeElement (k : nat) (img : Element) : Element * Velocity :=
  let x := rnd k * spanLeft img in
  let y := rnd (k + 1) * spanTop img in
  (set_position img x y,
   {| dx := speed (k + 2); dy := speed (k + 4); paused := false |}).

(** [velocities[index] = {...}] fills the slots in index order. *)
Fixpoint initializeFrom (k : nat) (images : list Element)
  : list Element * list Velocity :=
  match images with
  | [] => ([], [])
  | img :: rest =>
      let '(img', v) := initializeElement k img in
      let '(rest', vs) := initializeFrom (k + 6) rest in
      (img' :: rest', v :: vs)
  end.

Definition initializePositionsAndVelocities (images : list Element)
  : list Element * list Velocity :=
  initializeFrom 0 images.

End Initialize.

(** ** The running page *)

Record Page := {
  window : Window;
  images : list Element;
  velocities : list Velocity;
  looping : bool   (* a frame callback is scheduled *)
}.

(** One call of [animate]. *)
Definition animate (ver : version) (page : Page) : Page :=
  match ver with
  | Original =>
      match forEachUnguarded (animateReflecting (window page)) 0
              (images page) (velocities page) with
      | Returned (imgs, vels) =>
          {| window := window page; images := imgs; velocities := vels;
             looping := true |}
      | Threw (imgs, vels) =>
          {| window := window page; images := imgs; velocities := vels;
             looping := false |}
      end
  | Parked =>
      let '(imgs, vels) :=
        forEachGuarded (animateReflecting (window page)) 0
          (images page) (velocities page) in
      {| window := window page; images := imgs; velocities := vels;
         looping := true |}
  | Clamping =>
      let '(imgs, vels) :=
        forEachGuarded (animateClamping (window page)) 0
          (images page) (velocities page) in
      {| window := window page; images := imgs; velocities := vels;
         looping := true |}
  end.

(** The start of the page, once sizes can be trusted: script.js
    initialises and calls [animate()] at once; the reworked scripts
    initialise, clamp, and schedule the first frame. *)
Definition boot (ver : version) (win : Window) (rnd : nat -> Q)
    (elements : list Element) : Page :=
  let '(imgs, vels) := initializePositionsAndVelocities ver win rnd elements in
  match ver with
  | Original =>
      animate Original
        {| window := win; images := imgs; velocities := vels; looping := true |}
  | Parked | Clamping =>
      {| window := win;
         images := clampAllPositionsToViewport win imgs;
         velocities := vels;
         looping := true |}
  end.

(** What can happen to a running page. *)
Inductive event :=
| MouseEnter (index : nat)
| MouseLeave (index : nat)
| TouchStart (index : nat)
| AnimationFrame
| Resize (win : Window)
| Reflow (layout : nat -> Element -> DOMRect * (Q * Q)).

(** The browser lays the elements out again: rectangles and offset sizes
    change, the inline styles do not. *)
Definition relayout (layout : nat -> Element -> DOMRect * (Q * Q)) (index : nat)
    (img : Element) : Element :=
  {| style_left := style_left img;
     style_top := style_top img;
     bounding := (layout index img).1;
     offsetWidth := (layout index img).2.1;
     offsetHeight := (layout index img).2.2 |}.

Definition with_velocities (page : Page) (vels : list Velocity) : Page :=
  {| window := window page; images := images page; velocities := vels;
     looping := looping page |}.

Definition with_images (page : Page) (imgs : list Element) : Page :=
  {| window := window page; images := imgs; velocities := velocities page;
     looping := looping page |}.

Definition step (ver : version) (page : Page) (ev : event) : Page :=
  match ev with
  | MouseEnter index =>
      match images page !! index with
      | Some _ => with_velocities page (mouseenter index (velocities page))
      | None => page
      end
  | MouseLeave index =>
      match images page !! index with
      | Some _ =>
          match mouseleave index (velocities page) with
          | Some vels => with_velocities page vels
          | None => page
          end
      | None => page
      end
  | TouchStart index =>
      match ver, images page !! index with
      | Original, _ => page   (* script.js registers no touch listener *)
      | _, Some _ => with_velocities page (touchstart index (velocities page))
      | _, None => page
      end
  | AnimationFrame =>
      if looping page then animate ver page else page
  | Resize win =>
      let page' :=
        {| window := win; images := images page;
           velocities := velocities page; looping := looping page |} in
      match ver with
      | Original => page'     (* script.js has no resize listener *)
      | Parked | Clamping =>
          with_images page' (clampAllPositionsToViewport win (images page))
      end
  | Reflow layout =>
      with_images page (imap (relayout layout) (images page))
  end.

Definition run (ver : version) (page : Page) (events : list event) : Page :=
  foldl (step ver) page events.

(** ** ReadinessGate

<<
const imgElements = images.map(a => a.querySelector('img')).filter(Boolean);
const loadPromises = imgElements.map(img => new Promise(resolve => {
  if (img.complete && img.naturalWidth !== 0) {
    resolve();
  } else {
    const onDone = () => { ...removeEventListener...; resolve(); };
    img.addEventListener('load', onDone);
    img.addEventListener('error', onDone);
  }
}));
return Promise.all(loadPromises);
>> *)

Module ReadinessGate.

(** The inner [<img>] as the gate reads it.  The browser reports
    [complete] for an image that is fully available and also for one
    that is broken; a broken image has [naturalWidth] 0. *)
Record Img := {
  complete : bool;
  naturalWidth : nat
}.

(** [a.querySelector('img')]: [None] is [null]. *)
Definition Anchor := option Img.

(** A promise of the gate: resolved, or pending with [onDone]
    subscribed to both [load] and [error] of its image. *)
Inductive promise := Resolved | Pending.

Definition executor (img : Img) : promise :=
  if complete img && negb (Nat.eqb (naturalWidth img) 0) then Resolved
  else Pending.

(** [images.map(a => a.querySelector('img')).filter(Boolean)] *)
Definition imgElements (anchors : list Anchor) : list Img :=
  omap id anchors.

Definition waitForAllImagesLoaded (anchors : list Anchor) : list promise :=
  map executor (imgElements anchors).

(** The other reworked script returns [Promise.resolve()] when there is
    no inner image. *)
Definition waitForInnerImages (anchors : list Anchor) : list promise :=
  match imgElements anchors with
  | [] => []
  | imgElems => map executor imgElems
  end.

Definition is_resolved (p : promise) : bool :=
  match p with Resolved => true | Pending => false end.

(** [Promise.all]: fulfilled when every promise is. *)
Definition all_resolved (ps : list promise) : bool := forallb is_resolved ps.

(** A [load] or [error] event fired by the browser on the [k]-th inner
    image. *)
Inductive signal :=
| Load (k : nat)
| Error (k : nat).

Definition target (s : signal) : nat :=
  match s with Load k | Error k => k end.

(** A pending promise has [onDone] on both events, a resolved one has no
    listener left. *)
Definition dispatch (ps : list promise) (s : signal) : list promise :=
  <[target s := Resolved]> ps.

Definition settle (ps : list promise) (signals : list signal) : list promise :=
  foldl dispatch ps signals.

(** An image that loaded before the script ran. *)
Definition loaded (w : nat) : Img := {| complete := true; naturalWidth := S w |}.

(** An image whose load had already failed when the script ran. *)
Definition broken : Img := {| complete := true; naturalWidth := 0 |}.

(** An image still loading. *)
Definition loading : Img := {| complete := false; naturalWidth := 0 |}.

End ReadinessGate.

(** ** Notions the properties are stated with *)

(** The loop body each version of the script runs. *)
Definition engine (ver : version) (win : Window)
  : Element -> Velocity -> Element * Velocity :=
  match ver with
  | Original | Parked => animateReflecting win
  | Clamping => animateClamping win
  end.

(** Every element has its roster entry. *)
Definition aligned (page : Page) : Prop :=
  (length (images page) <= length (velocities page))%nat.

(** The stored coordinate is a number in [[0, view - size]]. *)
Definition within (view size : Q) (pos : JS.number) : Prop :=
  exists p, pos = Some p /\ 0 <= p /\ p <= view - size.

(** The stored coordinate is a number in [[0, max(0, view - size)]]. *)
Definition contained (view size : Q) (pos : JS.number) : Prop :=
  exists p, pos = Some p /\ 0 <= p /\ p <= Qmax 0 (view - size).

(** No two entries of the roster are paused. *)
Definition at_most_one_paused (velocities : list Velocity) : Prop :=
  forall i j vi vj,
    velocities !! i = Some vi -> velocities !! j = Some vj ->
    paused vi = true -> paused vj = true -> i = j.

(** Entry by entry, nothing became paused. *)
Definition none_newly_paused (before after : list Velocity) : Prop :=
  forall j v', after !! j = Some v' -> paused v' = true ->
    exists v, before !! j = Some v /\ paused v = true.

(** Each component is kept or multiplied by -1; the pause flag is kept. *)
Definition reflected (v v' : Velocity) : Prop :=
  (dx v' = dx v \/ dx v' = flip (dx v)) /\
  (dy v' = dy v \/ dy v' = flip (dy v)) /\
  paused v' = paused v.


(** The page handed to the first frame. *)
Definition initialized (ver : version) (win : Window) (rnd : nat -> Q)
    (elements : list Element) : Page :=
  {| window := win;
     images := (initializePositionsAndVelocities ver win rnd elements).1;
     velocities := (initializePositionsAndVelocities ver win rnd elements).2;
     looping := true |}.

(** The element with its inline [left] (or [top]) missing. *)
Definition unset_left (img : Element) : Element :=
  {| style_left := None;
     style_top := style_top img;
     bounding := bounding img;
     offsetWidth := offsetWidth img;
     offsetHeight := offsetHeight img |}.

Definition unset_top (img : Element) : Element :=
  {| style_left := style_left img;
     style_top := None;
     bounding := bounding img;
     offsetWidth := offsetWidth img;
     offsetHeight := offsetHeight img |}.

(** ** Sample pages *)

(** A Body far outside an 800x600 viewport. *)
Definition stray_img : Element :=
  {| style_left := Some 5000; style_top := Some (-300);
     bounding := {| rect_left := 5000; rect_top := -300;
                    rect_width := 50; rect_height := 50 |};
     offsetWidth := 50; offsetHeight := 50 |}.

Definition stray_velocity : Velocity := {| dx := 5; dy := 1; paused := false |}.

Definition stray_page : Page :=
  {| window := {| innerWidth := 800; innerHeight := 600 |};
     images := [stray_img];
     velocities := [stray_velocity];
     looping := true |}.

(** An element whose inline style says 0px, 0px while the browser reports
    its rectangle at (30, 12). *)
Definition zero_img : Element :=
  {| style_left := Some 0; style_top := Some 0;
     bounding := {| rect_left := 30; rect_top := 12;
                    rect_width := 50; rect_height := 50 |};
     offsetWidth := 50; offsetHeight := 50 |}.


(** A 50x50 Body at (l, t), and the page with that one Body, unpaused,
    with velocity (vx, vy) in an 800x600 viewport.  The scenario of the
    design document is [one_body 798 10 5 1]. *)
Definition body_at (l t : Q) : Element :=
  {| style_left := Some l; style_top := Some t;
     bounding := {| rect_left := l; rect_top := t;
                    rect_width := 50; rect_height := 50 |};
     offsetWidth := 50; offsetHeight := 50 |}.

Definition one_body (l t vx vy : Q) : Page :=
  {| window := {| innerWidth := 800; innerHeight := 600 |};
     images := [body_at l t];
     velocities := [ {| dx := vx; dy := vy; paused := false |} ];
     looping := true |}.

Definition scenario_page : Page := one_body 798 10 5 1.

(** The scenario page after an update that wrote (l, t) and left the
    velocity (vx, vy); the layout figures are those read during the
    update. *)
Definition scenario_after (l t vx vy : Q) : Page :=
  {| window := {| innerWidth := 800; innerHeight := 600 |};
     images := [ set_position (body_at 798 10) l t ];
     velocities := [ {| dx := vx; dy := vy; paused := false |} ];
     looping := true |}.

(** A Body of script.js near the bottom right corner, moving towards
    it. *)
Definition falling_page : Page := one_body 749 548 5 3.

(** A Body of script.js inside the range, 1px from the far edge. *)
Definition edge_page : Page := one_body 749 10 5 1.

(** Three Bodies, the first two flagged paused. *)
Definition three_paused : Page :=
  {| window := {| innerWidth := 800; innerHeight := 600 |};
     images := [body_at 10 10; body_at 100 100; body_at 200 200];
     velocities := [ {| dx := 1; dy := 1; paused := true |};
                     {| dx := 2; dy := -1; paused := true |};
                     {| dx := -1; dy := 1; paused := false |} ];
     looping := true |}.

(** ** The loops with the sums as the machine computes them

    [left += velocity.dx], [left + rect.width] and
    [window.innerWidth - w] are operations on doubles: each yields the
    sum or the difference rounded to a double.  The definitions above take
    them to be exact.  The definitions below take the two operations as a
    parameter, so that what is said about the branch an update takes is
    said of the sums as they are computed; with the exact operations they
    are the definitions above. *)

Record Arith := {
  js_add : Q -> Q -> Q;
  js_sub : Q -> Q -> Q
}.

Definition exact_arith : Arith := {| js_add := Qplus; js_sub := Qminus |}.

(** The operation depends on the numbers, not on how they are written. *)
Definition respects_values (A : Arith) : Prop :=
  forall a a' b b', a == a' -> b == b' -> js_add A a b == js_add A a' b'.

Section Rounded.

Variable A : Arith.

Definition clampStepAxisWith (view size pos d : Q) : Q * Q :=
  let pos := js_add A pos d in
  let minPos := 0 in
  let maxPos := Qmax 0 (js_sub A view size) in
  if JS.le pos minPos then (minPos, flip d)
  else if JS.ge pos maxPos then (maxPos, flip d)
  else (pos, d).

Definition animateClampingWith (win : Window) (img : Element)
    (velocity : Velocity) : Element * Velocity :=
  let rect := bounding img in
  let w := rect_width rect in
  let h := rect_height rect in
  let '(left', dx') :=
    clampStepAxisWith (innerWidth win) w (read_left img) (dx velocity) in
  let '(top', dy') :=
    clampStepAxisWith (innerHeight win) h (read_top img) (dy velocity) in
  (set_position img left' top',
   {| dx := dx'; dy := dy'; paused := paused velocity |}).

Definition reflectStepAxisWith (view size : Q) (pos : JS.number) (d : Q)
  : JS.number * Q :=
  match pos with
  | None => (None, d)
  | Some p =>
      let p := js_add A p d in
      (Some p,
       if JS.le p 0 || JS.ge (js_add A p size) view then flip d else d)
  end.

Definition animateReflectingWith (win : Window) (img : Element)
    (velocity : Velocity) : Element * Velocity :=
  let rect := bounding img in
  let '(left', dx') :=
    reflectStepAxisWith (innerWidth win) (rect_width rect) (style_left img)
      (dx velocity) in
  let '(top', dy') :=
    reflectStepAxisWith (innerHeight win) (rect_height rect) (style_top img)
      (dy velocity) in
  (set_position_nan img left' top',
   {| dx := dx'; dy := dy'; paused := paused velocity |}).

Definition engineWith (ver : version) (win : Window)
  : Element -> Velocity -> Element * Velocity :=
  match ver with
  | Original | Parked => animateReflectingWith win
  | Clamping => animateClampingWith win
  end.

(** One call of [animate]. *)
Definition animateWith (ver : version) (page : Page) : Page :=
  match ver with
  | Original =>
      match forEachUnguarded (animateReflectingWith (window page)) 0
              (images page) (velocities page) with
      | Returned (imgs, vels) =>
          {| window := window page; images := imgs; velocities := vels;
             looping := true |}
      | Threw (imgs, vels) =>
          {| window := window page; images := imgs; velocities := vels;
             looping := false |}
      end
  | Parked =>
      let '(imgs, vels) :=
        forEachGuarded (animateReflectingWith (window page)) 0
          (images page) (velocities page) in
      {| window := window page; images := imgs; velocities := vels;
         looping := true |}
  | Clamping =>
      let '(imgs, vels) :=
        forEachGuarded (animateClampingWith (window page)) 0
          (images page) (velocities page) in
      {| window := window page; images := imgs; velocities := vels;
         looping := true |}
  end.

End Rounded.

(** What one update of the clamping loop does on one axis in a range
    [[0, hi]], [moved] being the sum of coordinate and velocity as
    computed: the Body flies freely to [moved], or it lands on the near
    edge, or on the far edge, and then leaves with [d] reversed and not
    pointing out of the range. *)
Definition flies_or_lands (hi moved d : Q) (pos' : JS.number) (d' : Q) : Prop :=
  (0 < moved /\ moved < hi /\ pos' = Some moved /\ d' = d) \/
  (moved <= 0 /\ pos' = Some 0 /\ d' = flip d /\ 0 <= d') \/
  (0 < moved /\ hi <= moved /\ pos' = Some hi /\ d' = flip d /\ d' <= 0).

(** ** Parking the anchors off screen until sizes are known

<<
images.forEach(el => {
  el.__savedTransform = el.style.transform || '';
  el.style.transform = `translate(-9999px, -9999px)`;
});
...
img.style.transform = img.__savedTransform || '';
>> *)

Module Parking.

(** The inline [transform] of an anchor and its [__savedTransform]
    property; [None] is [undefined]. *)
Record Anchor := {
  transform : string;
  savedTransform : option string
}.

(** [a || b] on strings: the empty string is falsy. *)
Definition or_text (a b : string) : string :=
  match a with
  | EmptyString => b
  | _ => a
  end.

Definition offscreen : string := "translate(-9999px, -9999px)".

(** The loop that runs when the script is evaluated. *)
Definition park (el : Anchor) : Anchor :=
  {| transform := offscreen;
     savedTransform := Some (or_text (transform el) EmptyString) |}.

(** The assignment in [initializePositionsAndVelocities]. *)
Definition restore (el : Anchor) : Anchor :=
  {| transform :=
       match savedTransform el with
       | Some saved => or_text saved EmptyString
       | None => EmptyString
       end;
     savedTransform := savedTransform el |}.

End Parking.

(** ** Further notions *)

(** [n] frame callbacks in a row. *)
Definition frames (n : nat) : list event := replicate n AnimationFrame.

Definition is_reflow (ev : event) : bool :=
  match ev with
  | Reflow _ => true
  | _ => false
  end.

(** The browser reports a rectangle of non-zero width and height. *)
Definition measurable (img : Element) : Prop :=
  ~ rect_width (bounding img) == 0 /\ ~ rect_height (bounding img) == 0.

(** The stored position is a pair of numbers, neither negative. *)
Definition on_screen_origin (img : Element) : Prop :=
  exists l t, style_left img = Some l /\ style_top img = Some t /\
    0 <= l /\ 0 <= t.


(** An element that has been outside the right edge of an 800x600
    viewport since the viewport shrank. *)
Definition stuck_page : Page := one_body 798 10 (-5) 1.

(** A source of random numbers that always answers 0.25. *)
Definition quarter : nat -> Q := fun _ => 0.25.

(** * Properties *)

(** ** Comparisons and truthiness *)

Lemma JS_le_spec a b : JS.le a b = true <-> a <= b.
Proof. apply Qle_bool_iff. Qed.

Lemma JS_ge_spec a b : JS.ge a b = true <-> b <= a.
Proof. apply Qle_bool_iff. Qed.

Lemma JS_le_false a b : JS.le a b = false <-> b < a.
Proof.
  unfold JS.le. split; intros H.
  - apply Qnot_le_lt. intros Hle. apply Qle_bool_iff in Hle. congruence.
  - destruct (Qle_bool a b) eqn:E; [|reflexivity].
    apply Qle_bool_iff in E. lra.
Qed.

Lemma JS_ge_false a b : JS.ge a b = false <-> a < b.
Proof. apply JS_le_false. Qed.

Lemma JS_lt_spec a b : JS.lt a b = true <-> a < b.
Proof. unfold JS.lt. rewrite negb_true_iff. apply JS_le_false. Qed.

Lemma JS_is_zero_spec x : JS.is_zero x = true <-> x == 0.
Proof. apply Qeq_bool_iff. Qed.

(** ** clamp and the axis maps *)

Lemma clamp_cases n lo hi :
  (Qmin hi n <= lo /\ clamp n lo hi = lo) \/
  (lo < Qmin hi n /\ hi <= n /\ clamp n lo hi = hi) \/
  (lo < n /\ n < hi /\ clamp n lo hi = n).
Proof.
  unfold clamp.
  destruct (Qlt_le_dec lo (Qmin hi n)) as [Hlt|Hle].
  - right.
    assert (Hmax : Qmax lo (Qmin hi n) = Qmin hi n).
    { unfold Qmax, GenericMinMax.gmax.
      destruct (lo ?= Qmin hi n) eqn:E; try reflexivity.
      - apply Qeq_alt in E. lra.
      - apply Qgt_alt in E. lra. }
    rewrite Hmax.
    unfold Qmin, GenericMinMax.gmin in *.
    destruct (hi ?= n) eqn:E.
    + left. apply Qeq_alt in E. split; [lra|]. split; [lra|reflexivity].
    + left. apply Qlt_alt in E. split; [lra|]. split; [lra|reflexivity].
    + right. apply Qgt_alt in E. split; [lra|]. split; [lra|reflexivity].
  - left. split; [exact Hle|].
    unfold Qmax, GenericMinMax.gmax.
    destruct (lo ?= Qmin hi n) eqn:E; try reflexivity.
    apply Qlt_alt in E. lra.
Qed.

Lemma Qmax_0_cases a :
  (a <= 0 /\ Qmax 0 a = 0) \/ (0 < a /\ Qmax 0 a = a).
Proof.
  unfold Qmax, GenericMinMax.gmax.
  destruct (0 ?= a) eqn:E.
  - left. apply Qeq_alt in E. split; [lra|reflexivity].
  - right. apply Qlt_alt in E. split; [lra|reflexivity].
  - left. apply Qgt_alt in E. split; [lra|reflexivity].
Qed.

Lemma Qmax_0_nonneg a : 0 <= Qmax 0 a.
Proof. destruct (Qmax_0_cases a) as [[? ->]|[? ->]]; lra. Qed.

Lemma Qmax_0_fits a : 0 <= a -> Qmax 0 a == a.
Proof. intros H. destruct (Qmax_0_cases a) as [[? ->]|[? ->]]; lra. Qed.

Lemma clamp_between n lo hi : lo <= hi -> lo <= clamp n lo hi /\ clamp n lo hi <= hi.
Proof.
  intros H.
  destruct (clamp_cases n lo hi) as [[? ->]|[[? [? ->]]|[? [? ->]]]]; lra.
Qed.


Lemma clampAxis_contained view size p :
  0 <= clampAxis view size p /\ clampAxis view size p <= Qmax 0 (view - size).
Proof. apply clamp_between, Qmax_0_nonneg. Qed.


Lemma clampStepAxis_contained view size pos d :
  0 <= (clampStepAxis view size pos d).1 /\
  (clampStepAxis view size pos d).1 <= Qmax 0 (view - size).
Proof.
  unfold clampStepAxis.
  pose proof (Qmax_0_nonneg (view - size)) as Hmax.
  destruct (JS.le (pos + d) 0) eqn:Hlo; simpl; [lra|].
  apply JS_le_false in Hlo.
  destruct (JS.ge (pos + d) (Qmax 0 (view - size))) eqn:Hhi; simpl; [lra|].
  apply JS_ge_false in Hhi. lra.
Qed.

Lemma clampStepAxis_velocity view size pos d :
  (clampStepAxis view size pos d).2 = d \/
  (clampStepAxis view size pos d).2 = flip d.
Proof.
  unfold clampStepAxis.
  destruct (JS.le (pos + d) 0); [right; reflexivity|].
  destruct (JS.ge (pos + d) (Qmax 0 (view - size))); [right|left]; reflexivity.
Qed.

Lemma reflectStepAxis_velocity view size pos d :
  (reflectStepAxis view size pos d).2 = d \/
  (reflectStepAxis view size pos d).2 = flip d.
Proof.
  unfold reflectStepAxis. destruct pos as [p|]; [|left; reflexivity].
  simpl. destruct (JS.le (p + d) 0 || JS.ge (p + d + size) view);
    [right|left]; reflexivity.
Qed.

Lemma Qabs_flip d : Qabs (flip d) == Qabs d.
Proof.
  unfold flip. rewrite Qabs_Qmult.
  assert (E : Qabs (-1) == 1) by reflexivity.
  rewrite E. ring.
Qed.

(** ** The loop, read off the state before it *)

Section ForEachFacts.

Variable body : Element -> Velocity -> Element * Velocity.

Lemma visit_lookup index img velocity velocities j :
  velocities !! index = Some velocity ->
  (visit body index img velocity velocities).2 !! j =
    if decide (j = index)
    then Some (if paused velocity then velocity else (body img velocity).2)
    else velocities !! j.
Proof.
  intros Hv. unfold visit.
  destruct (paused velocity).
  - simpl. case_decide; subst; auto.
  - destruct (body img velocity) as [img' v']. simpl.
    case_decide; subst.
    + apply list_lookup_insert_eq. eapply lookup_lt_Some; eauto.
    + apply list_lookup_insert_ne. auto.
Qed.

Lemma visit_fst index img velocity velocities :
  (visit body index img velocity velocities).1 =
    if paused velocity then img else (body img velocity).1.
Proof.
  unfold visit. destruct (paused velocity); [reflexivity|].
  destruct (body img velocity); reflexivity.
Qed.

Lemma forEachGuarded_spec images : forall index velocities,
  forEachGuarded body index images velocities =
    (imap (fun k => moved body velocities (index + k)) images,
     imap (fun j v => if decide (j < index)%nat then v
                      else bounced body images (j - index) v) velocities).
Proof.
  induction images as [|img rest IH]; intros index velocities.
  - simpl. f_equal. apply list_eq. intros j.
    rewrite list_lookup_imap.
    destruct (velocities !! j) as [v|]; [|reflexivity]. simpl. f_equal.
    case_decide; [reflexivity|].
    unfold bounced. rewrite lookup_nil. reflexivity.
  - simpl.
    set (st := match velocities !! index with
               | Some velocity => visit body index img velocity velocities
               | None => (img, velocities)
               end).
    assert (Hfst : st.1 = moved body velocities index img).
    { unfold st, moved. destruct (velocities !! index); [|reflexivity].
      apply visit_fst. }
    assert (Hsnd : forall j, st.2 !! j =
              (fun v => if decide (j = index) then bounced body (img :: rest) 0 v else v)
                <$> velocities !! j).
    { intros j. unfold st.
      destruct (velocities !! index) as [velocity|] eqn:Hv.
      - rewrite visit_lookup by exact Hv.
        case_decide; subst.
        + rewrite Hv. reflexivity.
        + destruct (velocities !! j); reflexivity.
      - simpl. case_decide; subst.
        + rewrite Hv. reflexivity.
        + destruct (velocities !! j); reflexivity. }
    destruct st as [img' velocities'] eqn:Est. simpl in Hfst, Hsnd.
    rewrite IH. f_equal.
    + rewrite Nat.add_0_r. f_equal; [exact Hfst|].
      apply imap_ext. intros k x _. unfold moved. simpl.
      rewrite Hsnd.
      replace (index + S k)%nat with (S (index + k)) by lia.
      destruct (velocities !! S (index + k)); simpl; [|reflexivity].
      rewrite decide_False by lia. reflexivity.
    + apply list_eq. intros j.
      rewrite !list_lookup_imap, Hsnd.
      destruct (velocities !! j) as [v|]; [|reflexivity]. simpl. f_equal.
      destruct (decide (j = index)) as [->|Hne].
      * rewrite decide_True by lia. rewrite decide_False by lia.
        rewrite Nat.sub_diag. reflexivity.
      * destruct (decide (j < index)%nat) as [Hlt|Hge].
        -- rewrite decide_True by lia. reflexivity.
        -- rewrite decide_False by lia.
           unfold bounced.
           replace (j - index)%nat with (S (j - S index)) by lia.
           reflexivity.
Qed.

End ForEachFacts.

Lemma visit_length body index img velocity velocities :
  length (visit body index img velocity velocities).2 = length velocities.
Proof.
  unfold visit. destruct (paused velocity); [reflexivity|].
  destruct (body img velocity). simpl. apply length_insert.
Qed.

(** With an entry for every element, the loop of script.js returns and
    does what the guarded loop does. *)
Lemma forEachUnguarded_total body images : forall index velocities,
  (index + length images <= length velocities)%nat ->
  forEachUnguarded body index images velocities =
    Returned (forEachGuarded body index images velocities).
Proof.
  induction images as [|img rest IH]; intros index velocities Hlen.
  - reflexivity.
  - simpl in *.
    destruct (velocities !! index) as [velocity|] eqn:Hv.
    + pose proof (visit_length body index img velocity velocities) as Hl.
      destruct (visit body index img velocity velocities) as [img' velocities'].
      simpl in Hl.
      rewrite IH by lia.
      destruct (forEachGuarded body (S index) rest velocities'). reflexivity.
    + apply lookup_ge_None in Hv. lia.
Qed.

(** ** One call of animate, read off the page before it *)

Lemma forEachGuarded_images body images velocities i :
  (forEachGuarded body 0 images velocities).1 !! i =
    moved body velocities i <$> images !! i.
Proof. rewrite forEachGuarded_spec. simpl. apply list_lookup_imap. Qed.

Lemma forEachGuarded_velocities body images velocities j :
  (forEachGuarded body 0 images velocities).2 !! j =
    bounced body images j <$> velocities !! j.
Proof.
  rewrite forEachGuarded_spec. simpl. rewrite list_lookup_imap.
  destruct (velocities !! j); [|reflexivity]. simpl.
  rewrite Nat.sub_0_r. reflexivity.
Qed.

Lemma animate_spec ver page :
  ver <> Original \/ aligned page ->
  animate ver page =
    {| window := window page;
       images := (forEachGuarded (engine ver (window page)) 0
                    (images page) (velocities page)).1;
       velocities := (forEachGuarded (engine ver (window page)) 0
                        (images page) (velocities page)).2;
       looping := true |}.
Proof.
  intros H. destruct ver; simpl.
  - destruct H as [H|H]; [congruence|].
    rewrite forEachUnguarded_total by (unfold aligned in H; lia).
    destruct (forEachGuarded _ _ _ _). reflexivity.
  - destruct (forEachGuarded _ _ _ _). reflexivity.
  - destruct (forEachGuarded _ _ _ _). reflexivity.
Qed.

Lemma animate_images ver page i :
  ver <> Original \/ aligned page ->
  images (animate ver page) !! i =
    moved (engine ver (window page)) (velocities page) i <$> images page !! i.
Proof.
  intros H. rewrite animate_spec by exact H. simpl.
  apply forEachGuarded_images.
Qed.

Lemma animate_velocities ver page j :
  ver <> Original \/ aligned page ->
  velocities (animate ver page) !! j =
    bounced (engine ver (window page)) (images page) j <$> velocities page !! j.
Proof.
  intros H. rewrite animate_spec by exact H. simpl.
  apply forEachGuarded_velocities.
Qed.

(** ** Where a coordinate lies *)

Lemma contained_within view size pos :
  size <= view -> contained view size pos -> within view size pos.
Proof.
  intros Hfit (p & -> & H0 & H1). exists p. split; [reflexivity|].
  rewrite Qmax_0_fits in H1 by lra. lra.
Qed.

Lemma animateClamping_contained win img velocity :
  let img' := (animateClamping win img velocity).1 in
  contained (innerWidth win) (rect_width (bounding img)) (style_left img') /\
  contained (innerHeight win) (rect_height (bounding img)) (style_top img').
Proof.
  unfold animateClamping.
  pose proof (clampStepAxis_contained (innerWidth win) (rect_width (bounding img))
                (read_left img) (dx velocity)) as Hl.
  pose proof (clampStepAxis_contained (innerHeight win) (rect_height (bounding img))
                (read_top img) (dy velocity)) as Ht.
  destruct (clampStepAxis (innerWidth win) _ _ _) as [l dx'].
  destruct (clampStepAxis (innerHeight win) _ _ _) as [t dy'].
  simpl in *. split; eexists; (split; [reflexivity|]); tauto.
Qed.

Lemma clampElement_contained win img :
  let img' := clampElement win img in
  contained (innerWidth win) (clamp_width img) (style_left img') /\
  contained (innerHeight win) (clamp_height img) (style_top img').
Proof.
  simpl. split; eexists; (split; [reflexivity|]); apply clampAxis_contained.
Qed.

Lemma animate_clamping_contained (page : Page) (index : nat)
    (img : Element) (velocity : Velocity) :
  images page !! index = Some img ->
  velocities page !! index = Some velocity ->
  paused velocity = false ->
  exists img',
    images (animate Clamping page) !! index = Some img' /\
    contained (innerWidth (window page)) (rect_width (bounding img))
      (style_left img') /\
    contained (innerHeight (window page)) (rect_height (bounding img))
      (style_top img').
Proof.
  intros Himg Hvel Hrun.
  exists (animateClamping (window page) img velocity).1. split.
  - rewrite animate_images by (left; discriminate).
    rewrite Himg. simpl. unfold moved. rewrite Hvel, Hrun. reflexivity.
  - apply animateClamping_contained.
Qed.

(** C10: in the clamping version one update of an unpaused Body writes
    back a position in [0, max(0, innerWidth - w)] x
    [0, max(0, innerHeight - h)], whatever the position and velocity it
    started from; nothing is assumed about where the Body was. *)
Theorem C10_clamping_update_contains (page : Page) (index : nat)
    (img : Element) (velocity : Velocity) :
  images page !! index = Some img ->
  velocities page !! index = Some velocity ->
  paused velocity = false ->
  exists img',
    images (animate Clamping page) !! index = Some img' /\
    contained (innerWidth (window page)) (rect_width (bounding img))
      (style_left img') /\
    contained (innerHeight (window page)) (rect_height (bounding img))
      (style_top img').
Proof. apply animate_clamping_contained. Qed.

Lemma C10_clamping_update_contains_witness :
  exists img',
    images (animate Clamping stray_page) !! 0%nat = Some img' /\
    contained 800 50 (style_left img') /\
    contained 600 50 (style_top img').
Proof.
  apply (C10_clamping_update_contains stray_page 0 stray_img stray_velocity);
    reflexivity.
Defined.

(** C6: on a resize to any viewport the reworked scripts clamp every
    Body into [0, max(0, innerWidth - w)] x [0, max(0, innerHeight - h)],
    and the roster (dx, dy and paused of every Body) is left as it was. *)
Theorem C6_resize_clamps_and_keeps_roster (ver : version) (page : Page)
    (win : Window) :
  ver <> Original ->
  let page' := step ver page (Resize win) in
  window page' = win /\
  velocities page' = velocities page /\
  length (images page') = length (images page) /\
  forall index img,
    images page !! index = Some img ->
    exists img',
      images page' !! index = Some img' /\
      contained (innerWidth win) (clamp_width img) (style_left img') /\
      contained (innerHeight win) (clamp_height img) (style_top img').
Proof.
  intros Hver.
  assert (E : step ver page (Resize win) =
              {| window := win;
                 images := clampAllPositionsToViewport win (images page);
                 velocities := velocities page;
                 looping := looping page |}).
  { destruct ver; [congruence| |]; reflexivity. }
  rewrite E. simpl. repeat split.
  - unfold clampAllPositionsToViewport. apply length_map.
  - intros index img Himg. exists (clampElement win img). split.
    + unfold clampAllPositionsToViewport.
      change (map (clampElement win) (images page))
        with (clampElement win <$> images page).
      rewrite list_lookup_fmap, Himg. reflexivity.
    + apply clampElement_contained.
Qed.

Lemma C6_resize_clamps_and_keeps_roster_witness :
  let page' := step Clamping stray_page
                 (Resize {| innerWidth := 320; innerHeight := 30 |}) in
  velocities page' = velocities stray_page /\
  exists img',
    images page' !! 0%nat = Some img' /\
    contained 320 50 (style_left img') /\
    contained 30 50 (style_top img').
Proof.
  destruct (C6_resize_clamps_and_keeps_roster Clamping stray_page
              {| innerWidth := 320; innerHeight := 30 |})
    as (_ & Hvel & _ & Himgs); [discriminate|].
  split; [exact Hvel|].
  apply (Himgs 0%nat stray_img). reflexivity.
Defined.

(** ** The stored coordinate 0 *)

Lemma or_else_zero q b : q == 0 -> JS.or_else (Some q) b = JS.or_else None b.
Proof.
  intros H. simpl. apply JS_is_zero_spec in H. rewrite H. reflexivity.
Qed.

(** C8: a stored left (or top) that parses to 0 is read exactly as a
    missing one, namely as [rect.left || 0] (or [rect.top || 0]), by
    the clamp pass and by the frame update of the clamping version. *)
Theorem C8_zero_coordinate_reads_as_missing (win : Window) (img : Element)
    (velocity : Velocity) (q : Q) :
  q == 0 ->
  (style_left img = Some q ->
     read_left img = JS.or_num (rect_left (bounding img)) 0 /\
     clampElement win img = clampElement win (unset_left img) /\
     animateClamping win img velocity =
       animateClamping win (unset_left img) velocity) /\
  (style_top img = Some q ->
     read_top img = JS.or_num (rect_top (bounding img)) 0 /\
     clampElement win img = clampElement win (unset_top img) /\
     animateClamping win img velocity =
       animateClamping win (unset_top img) velocity).
Proof.
  intros Hq. split; intros Hs.
  - assert (E : read_left img = read_left (unset_left img)).
    { unfold read_left. rewrite Hs. simpl bounding.
      rewrite (or_else_zero q _ Hq). reflexivity. }
    split; [rewrite E; reflexivity|].
    unfold clampElement, animateClamping. rewrite E. split; reflexivity.
  - assert (E : read_top img = read_top (unset_top img)).
    { unfold read_top. rewrite Hs. simpl bounding.
      rewrite (or_else_zero q _ Hq). reflexivity. }
    split; [rewrite E; reflexivity|].
    unfold clampElement, animateClamping. rewrite E. split; reflexivity.
Qed.

Lemma C8_zero_coordinate_reads_as_missing_witness :
  read_left zero_img = 30 /\ read_top zero_img = 12 /\
  clampElement stray_page.(window) zero_img =
    clampElement stray_page.(window) (unset_left zero_img) /\
  animateClamping stray_page.(window) zero_img stray_velocity =
    animateClamping stray_page.(window) (unset_top zero_img) stray_velocity.
Proof.
  destruct (C8_zero_coordinate_reads_as_missing stray_page.(window) zero_img
              stray_velocity 0) as [Hl Ht]; [reflexivity|].
  destruct Hl as (Hl1 & Hl2 & _); [reflexivity|].
  destruct Ht as (Ht1 & _ & Ht3); [reflexivity|].
  repeat split; assumption.
Defined.







(** ** The scenario *)

(** C2 (as the code has it): on the scenario one update of the clamping
    version gives left=750, dx=-5, top=11, dy=1; one update of script.js
    and of the copy that keeps its loop gives dx=-5, top=11, dy=1 as well
    but writes left=803, the unclamped sum. *)
Theorem C2_scenario_single_update :
  animate Clamping scenario_page = scenario_after 750 11 (-5) 1 /\
  animate Original scenario_page = scenario_after 803 11 (-5) 1 /\
  animate Parked scenario_page = scenario_after 803 11 (-5) 1.
Proof. repeat split; vm_compute; reflexivity. Qed.

(** C2 fails as stated for script.js: the update writes left=803. *)
Lemma C2_counterexample_original_writes_803 :
  exists img',
    images (step Original scenario_page AnimationFrame) !! 0%nat = Some img' /\
    style_left img' = Some 803 /\
    ~ 803 == 750.
Proof.
  eexists. split; [vm_compute; reflexivity|].
  split; [reflexivity|]. intros H. discriminate H.
Qed.

(** ** The boundary invariant *)

Lemma animateReflecting_position win img velocity l t :
  style_left img = Some l ->
  style_top img = Some t ->
  style_left (animateReflecting win img velocity).1 = Some (l + dx velocity) /\
  style_top (animateReflecting win img velocity).1 = Some (t + dy velocity).
Proof.
  intros Hl Ht. unfold animateReflecting, reflectStepAxis.
  rewrite Hl, Ht. simpl. split; reflexivity.
Qed.

Lemma animateReflecting_velocity win img velocity l :
  style_left img = Some l ->
  dx (animateReflecting win img velocity).2 =
    if JS.le (l + dx velocity) 0
       || JS.ge (l + dx velocity + rect_width (bounding img)) (innerWidth win)
    then flip (dx velocity) else dx velocity.
Proof.
  intros Hl. unfold animateReflecting, reflectStepAxis. rewrite Hl.
  destruct (style_top img); reflexivity.
Qed.

(** *** The loops under any arithmetic *)

Lemma animateWith_exact ver page :
  animateWith exact_arith ver page = animate ver page.
Proof. destruct ver; reflexivity. Qed.

Lemma animateWith_spec A ver page :
  ver <> Original \/ aligned page ->
  animateWith A ver page =
    {| window := window page;
       images := (forEachGuarded (engineWith A ver (window page)) 0
                    (images page) (velocities page)).1;
       velocities := (forEachGuarded (engineWith A ver (window page)) 0
                        (images page) (velocities page)).2;
       looping := true |}.
Proof.
  intros H. destruct ver; simpl.
  - destruct H as [H|H]; [congruence|].
    rewrite forEachUnguarded_total by (unfold aligned in H; lia).
    destruct (forEachGuarded _ _ _ _). reflexivity.
  - destruct (forEachGuarded _ _ _ _). reflexivity.
  - destruct (forEachGuarded _ _ _ _). reflexivity.
Qed.

Lemma animateWith_images A ver page i :
  ver <> Original \/ aligned page ->
  images (animateWith A ver page) !! i =
    moved (engineWith A ver (window page)) (velocities page) i
      <$> images page !! i.
Proof.
  intros H. rewrite animateWith_spec by exact H. simpl.
  apply forEachGuarded_images.
Qed.

Lemma animateWith_velocities A ver page j :
  ver <> Original \/ aligned page ->
  velocities (animateWith A ver page) !! j =
    bounced (engineWith A ver (window page)) (images page) j
      <$> velocities page !! j.
Proof.
  intros H. rewrite animateWith_spec by exact H. simpl.
  apply forEachGuarded_velocities.
Qed.

Lemma animateWith_shape A ver page :
  aligned page ->
  window (animateWith A ver page) = window page /\
  aligned (animateWith A ver page).
Proof.
  intros H. rewrite animateWith_spec by (right; exact H).
  split; [reflexivity|]. unfold aligned in *. simpl.
  rewrite forEachGuarded_spec. simpl. rewrite !length_imap. exact H.
Qed.

(** The unpaused Body at [i] after one call, whatever the version. *)
Lemma animateWith_unpaused A ver page i img v :
  ver <> Original \/ aligned page ->
  images page !! i = Some img ->
  velocities page !! i = Some v ->
  paused v = false ->
  images (animateWith A ver page) !! i
    = Some (engineWith A ver (window page) img v).1 /\
  velocities (animateWith A ver page) !! i
    = Some (engineWith A ver (window page) img v).2.
Proof.
  intros Hok Himg Hv Hrun. split.
  - rewrite animateWith_images by exact Hok.
    rewrite Himg. simpl. unfold moved. rewrite Hv, Hrun. reflexivity.
  - rewrite animateWith_velocities by exact Hok.
    rewrite Hv. simpl. unfold bounced. rewrite Himg, Hrun. reflexivity.
Qed.

Lemma engineWith_reflecting A ver win :
  ver <> Clamping -> engineWith A ver win = animateReflectingWith A win.
Proof. destruct ver; [reflexivity|reflexivity|congruence]. Qed.

(** C1 (as the code has it): for a Body no larger than the viewport, the
    clamp pass and one update of an unpaused Body by the clamping version
    leave 0 <= left <= innerWidth - w and 0 <= top <= innerHeight - h, the
    crossing being corrected before the position is written.  The update
    of script.js and of the copy that keeps its loop writes back the sums
    left + dx and top + dy as computed, unclamped; it reverses dx exactly
    when that sum is <= 0 or that sum plus w, as computed, is
    >= innerWidth, and reverses dy exactly when the other sum is <= 0 or
    that sum plus h is >= innerHeight. *)
Theorem C1_boundary_invariant_where_clamped :
  (forall (page : Page) (index : nat) (img : Element) (velocity : Velocity),
     images page !! index = Some img ->
     velocities page !! index = Some velocity ->
     paused velocity = false ->
     rect_width (bounding img) <= innerWidth (window page) ->
     rect_height (bounding img) <= innerHeight (window page) ->
     exists img',
       images (animate Clamping page) !! index = Some img' /\
       within (innerWidth (window page)) (rect_width (bounding img))
         (style_left img') /\
       within (innerHeight (window page)) (rect_height (bounding img))
         (style_top img')) /\
  (forall (win : Window) (imgs : list Element) (index : nat) (img : Element),
     imgs !! index = Some img ->
     clamp_width img <= innerWidth win ->
     clamp_height img <= innerHeight win ->
     exists img',
       clampAllPositionsToViewport win imgs !! index = Some img' /\
       within (innerWidth win) (clamp_width img) (style_left img') /\
       within (innerHeight win) (clamp_height img) (style_top img')) /\
  (forall (A : Arith) (ver : version) (page : Page) (index : nat)
          (img : Element) (velocity : Velocity) (l t : Q),
     ver <> Clamping ->
     aligned page ->
     images page !! index = Some img ->
     velocities page !! index = Some velocity ->
     paused velocity = false ->
     style_left img = Some l ->
     style_top img = Some t ->
     let l' := js_add A l (dx velocity) in
     let t' := js_add A t (dy velocity) in
     exists img' velocity',
       images (animateWith A ver page) !! index = Some img' /\
       velocities (animateWith A ver page) !! index = Some velocity' /\
       style_left img' = Some l' /\
       style_top img' = Some t' /\
       dx velocity' =
         (if JS.le l' 0
             || JS.ge (js_add A l' (rect_width (bounding img)))
                  (innerWidth (window page))
          then flip (dx velocity) else dx velocity) /\
       dy velocity' =
         (if JS.le t' 0
             || JS.ge (js_add A t' (rect_height (bounding img)))
                  (innerHeight (window page))
          then flip (dy velocity) else dy velocity) /\
       paused velocity' = false) /\
  (forall (ver : version) (page : Page),
     animateWith exact_arith ver page = animate ver page).
Proof.
  split; [|split; [|split]].
  - intros page index img velocity Himg Hvel Hrun Hw Hh.
    destruct (animate_clamping_contained page index img velocity Himg Hvel Hrun)
      as (img' & E & Hl & Ht).
    exists img'. split; [exact E|].
    split; apply contained_within; assumption.
  - intros win imgs index img Himg Hw Hh.
    exists (clampElement win img). split.
    + unfold clampAllPositionsToViewport.
      change (map (clampElement win) imgs) with (clampElement win <$> imgs).
      rewrite list_lookup_fmap, Himg. reflexivity.
    + destruct (clampElement_contained win img) as [Hl Ht].
      split; apply contained_within; assumption.
  - intros A ver page index img velocity l t Hver Hal Himg Hvel Hrun Hl Ht l' t'.
    destruct (animateWith_unpaused A ver page index img velocity
                (or_intror Hal) Himg Hvel Hrun) as [E1 E2].
    rewrite (engineWith_reflecting A ver _ Hver) in E1, E2.
    do 2 eexists. split; [exact E1|]. split; [exact E2|].
    unfold animateReflectingWith, reflectStepAxisWith.
    rewrite Hl, Ht. simpl. repeat split; try reflexivity. exact Hrun.
  - apply animateWith_exact.
Qed.

(** C1 fails as stated for script.js: a 50x50 Body at left=749 in an
    800x600 viewport ends the frame at left=754, beyond 800-50. *)
Lemma C1_counterexample_original_overshoots :
  rect_width (bounding (body_at 749 10)) <= innerWidth (window edge_page) /\
  rect_height (bounding (body_at 749 10)) <= innerHeight (window edge_page) /\
  within 800 50 (style_left (body_at 749 10)) /\
  exists img',
    images (step Original edge_page AnimationFrame) !! 0%nat = Some img' /\
    ~ within (innerWidth (window edge_page)) (rect_width (bounding img'))
        (style_left img').
Proof.
  split; [vm_compute; discriminate|].
  split; [vm_compute; discriminate|].
  split.
  { exists 749. split; [reflexivity|]. split; vm_compute; discriminate. }
  eexists. split; [vm_compute; reflexivity|].
  intros (p & Hp & _ & Hhi). simpl in Hp. inversion Hp; subst p.
  vm_compute in Hhi. apply Hhi. reflexivity.
Qed.

Lemma C1_boundary_invariant_where_clamped_witness :
  (exists img',
     images (animate Clamping scenario_page) !! 0%nat = Some img' /\
     within 800 50 (style_left img') /\ within 600 50 (style_top img')) /\
  (exists img',
     clampAllPositionsToViewport {| innerWidth := 320; innerHeight := 200 |}
       [stray_img] !! 0%nat = Some img' /\
     within 320 50 (style_left img') /\ within 200 50 (style_top img')) /\
  (exists img' velocity',
     images (animate Original falling_page) !! 0%nat = Some img' /\
     velocities (animate Original falling_page) !! 0%nat = Some velocity' /\
     style_left img' = Some (749 + 5) /\
     style_top img' = Some (548 + 3) /\
     dx velocity' = flip 5 /\
     dy velocity' = flip 3).
Proof.
  destruct C1_boundary_invariant_where_clamped as (Hupd & Hclamp & Hrefl & Hex).
  split; [|split].
  - apply (Hupd scenario_page 0%nat (body_at 798 10)
             {| dx := 5; dy := 1; paused := false |});
      try reflexivity; vm_compute; discriminate.
  - apply (Hclamp {| innerWidth := 320; innerHeight := 200 |} [stray_img]
             0%nat stray_img);
      try reflexivity; vm_compute; discriminate.
  - rewrite <- (Hex Original falling_page).
    destruct (Hrefl exact_arith Original falling_page 0%nat (body_at 749 548)
                {| dx := 5; dy := 3; paused := false |} 749 548)
      as (img' & velocity' & E1 & E2 & E3 & E4 & E5 & E6 & _);
      try reflexivity; try discriminate.
    { unfold aligned. simpl. lia. }
    exists img', velocity'. repeat split; assumption.
Defined.

(** ** Pause and resume *)

Lemma mouseenter_lookup index velocities j :
  mouseenter index velocities !! j =
    set_paused (Nat.eqb j index) <$> velocities !! j.
Proof. unfold mouseenter. rewrite list_lookup_imap. reflexivity. Qed.

Lemma mouseleave_lookup index velocities velocities' j :
  mouseleave index velocities = Some velocities' ->
  velocities' !! j =
    (if decide (j = index) then set_paused false else id) <$> velocities !! j.
Proof.
  unfold mouseleave. intros H.
  destruct (velocities !! index) as [v|] eqn:Hv; [|discriminate].
  inversion H; subst velocities'; clear H.
  case_decide; subst.
  - rewrite list_lookup_insert_eq by (eapply lookup_lt_Some; eauto).
    rewrite Hv. reflexivity.
  - rewrite list_lookup_insert_ne by auto.
    destruct (velocities !! j); reflexivity.
Qed.

Lemma mouseleave_defined index velocities v :
  velocities !! index = Some v ->
  mouseleave index velocities = Some (<[index := set_paused false v]> velocities).
Proof. intros H. unfold mouseleave. rewrite H. reflexivity. Qed.

Lemma mouseenter_exclusive index velocities :
  at_most_one_paused (mouseenter index velocities).
Proof.
  intros i j vi vj Hi Hj Pi Pj.
  rewrite mouseenter_lookup in Hi, Hj.
  destruct (velocities !! i); [|discriminate].
  destruct (velocities !! j); [|discriminate].
  simpl in *. inversion Hi; subst vi. inversion Hj; subst vj. simpl in *.
  apply Nat.eqb_eq in Pi, Pj. congruence.
Qed.

Lemma at_most_one_paused_kept before after :
  none_newly_paused before after ->
  at_most_one_paused before -> at_most_one_paused after.
Proof.
  intros Hnew Hone i j vi vj Hi Hj Pi Pj.
  destruct (Hnew i vi Hi Pi) as (wi & Hwi & Qi).
  destruct (Hnew j vj Hj Pj) as (wj & Hwj & Qj).
  eapply Hone; eauto.
Qed.

(** ** What a step does to the roster *)

Lemma reflected_refl v : reflected v v.
Proof. unfold reflected. auto. Qed.

Lemma engine_reflected ver win img v : reflected v (engine ver win img v).2.
Proof.
  destruct ver; simpl; unfold animateReflecting, animateClamping.
  1,2: pose proof (reflectStepAxis_velocity (innerWidth win)
                     (rect_width (bounding img)) (style_left img) (dx v)) as Hx;
       pose proof (reflectStepAxis_velocity (innerHeight win)
                     (rect_height (bounding img)) (style_top img) (dy v)) as Hy;
       destruct (reflectStepAxis (innerWidth win) _ _ _);
       destruct (reflectStepAxis (innerHeight win) _ _ _);
       simpl in *; repeat split; assumption.
  pose proof (clampStepAxis_velocity (innerWidth win)
                (rect_width (bounding img)) (read_left img) (dx v)) as Hx.
  pose proof (clampStepAxis_velocity (innerHeight win)
                (rect_height (bounding img)) (read_top img) (dy v)) as Hy.
  destruct (clampStepAxis (innerWidth win) _ _ _).
  destruct (clampStepAxis (innerHeight win) _ _ _).
  simpl in *. repeat split; assumption.
Qed.

Lemma bounced_reflected ver win imgs j v :
  reflected v (bounced (engine ver win) imgs j v).
Proof.
  unfold bounced. destruct (imgs !! j); [|apply reflected_refl].
  destruct (paused v) eqn:E; [apply reflected_refl|].
  apply engine_reflected.
Qed.

Lemma animate_lengths ver page :
  aligned page ->
  length (images (animate ver page)) = length (images page) /\
  length (velocities (animate ver page)) = length (velocities page).
Proof.
  intros H. rewrite animate_spec by (right; exact H). simpl.
  rewrite forEachGuarded_spec. simpl.
  rewrite !length_imap. split; reflexivity.
Qed.

Lemma step_lengths ver page ev :
  aligned page ->
  length (images (step ver page ev)) = length (images page) /\
  length (velocities (step ver page ev)) = length (velocities page).
Proof.
  intros Hal. destruct ev as [i|i|i| |win|layout]; simpl.
  - destruct (images page !! i); simpl; [|auto].
    unfold mouseenter. rewrite length_imap. auto.
  - destruct (images page !! i); simpl; [|auto].
    unfold mouseleave. destruct (velocities page !! i); simpl; [|auto].
    rewrite length_insert. auto.
  - destruct ver, (images page !! i); simpl; auto;
      unfold touchstart; rewrite length_imap; auto.
  - destruct (looping page); [|auto]. apply animate_lengths, Hal.
  - destruct ver; simpl; auto;
      unfold clampAllPositionsToViewport; rewrite length_map; auto.
  - rewrite length_imap. auto.
Qed.

Lemma step_aligned ver page ev : aligned page -> aligned (step ver page ev).
Proof.
  intros H. unfold aligned in *.
  destruct (step_lengths ver page ev H) as [-> ->]. exact H.
Qed.

(** The speed of every entry survives every step: a component is at most
    multiplied by -1. *)
Lemma step_speed ver page ev j v' :
  aligned page ->
  velocities (step ver page ev) !! j = Some v' ->
  exists v, velocities page !! j = Some v /\
    (dx v' = dx v \/ dx v' = flip (dx v)) /\
    (dy v' = dy v \/ dy v' = flip (dy v)).
Proof.
  intros Hal.
  assert (Hid : velocities page !! j = Some v' ->
                exists v, velocities page !! j = Some v /\
                  (dx v' = dx v \/ dx v' = flip (dx v)) /\
                  (dy v' = dy v \/ dy v' = flip (dy v))).
  { intros H. exists v'. auto. }
  assert (Henter : forall i, mouseenter i (velocities page) !! j = Some v' ->
                exists v, velocities page !! j = Some v /\
                  (dx v' = dx v \/ dx v' = flip (dx v)) /\
                  (dy v' = dy v \/ dy v' = flip (dy v))).
  { intros i H. rewrite mouseenter_lookup in H.
    destruct (velocities page !! j) as [v|]; [|discriminate].
    inversion H; subst v'. exists v. simpl. auto. }
  destruct ev as [i|i|i| |win|layout]; simpl.
  - destruct (images page !! i); simpl; [apply Henter|exact Hid].
  - destruct (images page !! i); simpl; [|exact Hid].
    destruct (mouseleave i (velocities page)) as [vels|] eqn:E; simpl;
      [|exact Hid].
    intros H. rewrite (mouseleave_lookup _ _ _ j E) in H.
    destruct (velocities page !! j) as [v|]; [|discriminate].
    inversion H; subst v'. exists v. case_decide; simpl; auto.
  - destruct ver, (images page !! i); simpl; try exact Hid;
      apply (Henter i).
  - destruct (looping page); [|exact Hid].
    rewrite animate_velocities by (right; exact Hal).
    destruct (velocities page !! j) as [v|]; [|discriminate].
    intros H. inversion H; subst v'. exists v. split; [reflexivity|].
    destruct (bounced_reflected ver (window page) (images page) j v)
      as (Hx & Hy & _). auto.
  - destruct ver; simpl; exact Hid.
  - exact Hid.
Qed.

(** Which entries are paused after a step. *)
Lemma step_pause ver page ev :
  aligned page ->
  at_most_one_paused (velocities page) ->
  at_most_one_paused (velocities (step ver page ev)).
Proof.
  intros Hal Hone.
  assert (Hid : none_newly_paused (velocities page) (velocities page)).
  { intros j v' H P. eauto. }
  destruct ev as [i|i|i| |win|layout]; simpl.
  - destruct (images page !! i); simpl; auto using mouseenter_exclusive.
  - destruct (images page !! i); simpl; auto.
    destruct (mouseleave i (velocities page)) as [vels|] eqn:E; simpl; auto.
    apply (at_most_one_paused_kept (velocities page)); [|exact Hone].
    intros j v' H P. rewrite (mouseleave_lookup _ _ _ j E) in H.
    destruct (velocities page !! j) as [v|]; [|discriminate].
    inversion H; subst v'. exists v. split; [reflexivity|].
    revert P. case_decide; simpl; [discriminate|auto].
  - destruct ver, (images page !! i); simpl; auto using mouseenter_exclusive.
  - destruct (looping page); auto.
    apply (at_most_one_paused_kept (velocities page)); [|exact Hone].
    intros j v' H P. rewrite animate_velocities in H by (right; exact Hal).
    destruct (velocities page !! j) as [v|]; [|discriminate].
    inversion H; subst v'. exists v. split; [reflexivity|].
    destruct (bounced_reflected ver (window page) (images page) j v)
      as (_ & _ & Hp). congruence.
  - destruct ver; simpl; auto.
  - auto.
Qed.

(** ** Initialisation *)

Lemma baseSpeed_positive ver : 0 < baseSpeed ver.
Proof. destruct ver; reflexivity. Qed.

Lemma speedRange_nonneg ver : 0 <= speedRange ver.
Proof. destruct ver; vm_compute; discriminate. Qed.

Lemma Qabs_sign r : Qabs (sign r) == 1.
Proof. unfold sign. destruct (JS.lt r 0.5); reflexivity. Qed.



Lemma initializeFrom_spec ver win rnd images : forall k,
  let '(imgs, vels) := initializeFrom ver win rnd k images in
  length imgs = length images /\
  length vels = length images /\
  forall j v, vels !! j = Some v ->
    paused v = false /\
    exists n, dx v = speed ver rnd (n + 2) /\ dy v = speed ver rnd (n + 4).
Proof.
  induction images as [|img rest IH]; intros k; simpl.
  - split; [reflexivity|]. split; [reflexivity|].
    intros j v H. rewrite lookup_nil in H. discriminate.
  - specialize (IH (k + 6)%nat).
    destruct (initializeFrom ver win rnd (k + 6) rest) as [rest' vs].
    destruct IH as (L1 & L2 & Hv). simpl.
    split; [congruence|]. split; [congruence|].
    intros j v H. destruct j as [|j]; simpl in H.
    + inversion H. simpl. split; [reflexivity|].
      exists k. split; reflexivity.
    + apply (Hv j v H).
Qed.

Lemma initialized_spec ver win rnd elements :
  aligned (initialized ver win rnd elements) /\
  forall j v, velocities (initialized ver win rnd elements) !! j = Some v ->
    paused v = false /\
    exists n, dx v = speed ver rnd (n + 2) /\ dy v = speed ver rnd (n + 4).
Proof.
  unfold initialized, aligned, initializePositionsAndVelocities. simpl.
  pose proof (initializeFrom_spec ver win rnd elements 0) as H.
  destruct (initializeFrom ver win rnd 0 elements) as [imgs vels].
  destruct H as (L1 & L2 & Hv). simpl. split; [lia|exact Hv].
Qed.

Lemma boot_spec ver win rnd elements :
  aligned (boot ver win rnd elements) /\
  forall j v', velocities (boot ver win rnd elements) !! j = Some v' ->
    exists v, velocities (initialized ver win rnd elements) !! j = Some v /\
      reflected v v'.
Proof.
  destruct (initialized_spec ver win rnd elements) as [Hal _].
  assert (E : boot ver win rnd elements =
              match ver with
              | Original => animate Original (initialized ver win rnd elements)
              | _ => with_images (initialized ver win rnd elements)
                       (clampAllPositionsToViewport win
                          (images (initialized ver win rnd elements)))
              end).
  { unfold boot, initialized.
    destruct (initializePositionsAndVelocities ver win rnd elements).
    destruct ver; reflexivity. }
  rewrite E. clear E. destruct ver.
  - split.
    + unfold aligned in *.
      destruct (animate_lengths Original _ Hal) as [-> ->]. exact Hal.
    + intros j v' H. rewrite animate_velocities in H by (right; exact Hal).
      destruct (velocities (initialized Original win rnd elements) !! j) as [v|];
        [|discriminate].
      inversion H; subst v'. exists v. split; [reflexivity|].
      apply (bounced_reflected Original).
  - split.
    + unfold aligned in *. simpl in *.
      unfold clampAllPositionsToViewport. rewrite length_map. exact Hal.
    + intros j v' H. exists v'. split; [exact H|apply reflected_refl].
  - split.
    + unfold aligned in *. simpl in *.
      unfold clampAllPositionsToViewport. rewrite length_map. exact Hal.
    + intros j v' H. exists v'. split; [exact H|apply reflected_refl].
Qed.


(** ** Every page the script can reach *)

Lemma run_snoc ver page events ev :
  run ver page (events ++ [ev]) = step ver (run ver page events) ev.
Proof. unfold run. apply foldl_snoc. Qed.

Lemma run_aligned ver page events :
  aligned page -> aligned (run ver page events).
Proof.
  induction events as [|ev events IH] using rev_ind; intros H; [exact H|].
  rewrite run_snoc. apply step_aligned, IH, H.
Qed.

Lemma run_at_most_one_paused ver page events :
  aligned page ->
  at_most_one_paused (velocities page) ->
  at_most_one_paused (velocities (run ver page events)).
Proof.
  induction events as [|ev events IH] using rev_ind; intros Hal H; [exact H|].
  rewrite run_snoc. apply step_pause; [apply run_aligned, Hal|apply IH; assumption].
Qed.


Lemma boot_none_paused ver win rnd elements j v :
  velocities (boot ver win rnd elements) !! j = Some v -> paused v = false.
Proof.
  intros H.
  destruct (boot_spec ver win rnd elements) as [_ Hb].
  destruct (Hb j v H) as (v0 & H0 & _ & _ & Hp).
  destruct (initialized_spec ver win rnd elements) as [_ Hi].
  destruct (Hi j v0 H0) as [Hp0 _]. congruence.
Qed.


(** C3: pointer-enter (and touch-start, where a listener exists) on the
    Body at [index] sets paused to [j = index] for every entry [j] of the
    roster whatever the flags were, and touches nothing else; so no two
    Bodies are paused in any page the script reaches, and hovering Body 0
    and then Body 1 leaves exactly Body 1 paused. *)
Theorem C3_pause_exclusive :
  (forall (velocities : list Velocity) (index j : nat) (v : Velocity),
     velocities !! j = Some v ->
     mouseenter index velocities !! j = Some (set_paused (Nat.eqb j index) v) /\
     touchstart index velocities !! j = Some (set_paused (Nat.eqb j index) v)) /\
  (forall (ver : version) (page : Page) (index : nat) (img : Element),
     images page !! index = Some img ->
     step ver page (MouseEnter index) =
       with_velocities page (mouseenter index (velocities page)) /\
     (ver <> Original ->
      step ver page (TouchStart index) =
        with_velocities page (touchstart index (velocities page)))) /\
  (forall (velocities : list Velocity) (index : nat),
     at_most_one_paused (mouseenter index velocities) /\
     at_most_one_paused (touchstart index velocities)) /\
  (forall (ver : version) (win : Window) (rnd : nat -> Q)
          (elements : list Element) (events : list event),
     at_most_one_paused
       (velocities (run ver (boot ver win rnd elements) events))) /\
  (forall v0 v1 : Velocity,
     paused <$> mouseenter 1 (mouseenter 0 [v0; v1]) = [false; true]).
Proof.
  split; [|split; [|split; [|split]]].
  - intros velocities index j v Hv.
    change (touchstart index velocities) with (mouseenter index velocities).
    rewrite mouseenter_lookup, Hv. split; reflexivity.
  - intros ver page index img Himg. simpl. rewrite Himg. split; [reflexivity|].
    intros Hver. destruct ver; [congruence| |]; reflexivity.
  - intros velocities index. split; apply mouseenter_exclusive.
  - intros ver win rnd elements events.
    apply run_at_most_one_paused.
    + apply boot_spec.
    + intros i j vi vj Hi Hj Pi Pj.
      rewrite (boot_none_paused _ _ _ _ _ _ Hi) in Pi. discriminate.
  - intros v0 v1. reflexivity.
Qed.

Lemma C3_pause_exclusive_witness :
  let before := [ {| dx := 1; dy := 1; paused := true |};
                  {| dx := 2; dy := -1; paused := true |};
                  {| dx := -1; dy := 1; paused := false |} ] in
  mouseenter 2 before !! 1%nat = Some {| dx := 2; dy := -1; paused := false |} /\
  touchstart 2 before !! 2%nat = Some {| dx := -1; dy := 1; paused := true |} /\
  step Clamping stray_page (MouseEnter 0) =
    with_velocities stray_page (mouseenter 0 (velocities stray_page)).
Proof.
  intros before.
  destruct C3_pause_exclusive as (Hentry & Hstep & _).
  destruct (Hentry before 2%nat 1%nat {| dx := 2; dy := -1; paused := true |})
    as [Henter _]; [reflexivity|].
  destruct (Hentry before 2%nat 2%nat {| dx := -1; dy := 1; paused := false |})
    as [_ Htouch]; [reflexivity|].
  destruct (Hstep Clamping stray_page 0%nat stray_img) as [Hpage _];
    [reflexivity|].
  split; [exact Henter|]. split; [exact Htouch|exact Hpage].
Defined.

(** C7: pointer-leave on the Body at [index] clears its paused flag and
    nothing else: every other roster entry, every dx and dy, every
    position and the viewport are as before. *)
Theorem C7_resume_local (ver : version) (page : Page) (index : nat)
    (img : Element) (v : Velocity) :
  images page !! index = Some img ->
  velocities page !! index = Some v ->
  let page' := step ver page (MouseLeave index) in
  mouseleave index (velocities page) = Some (velocities page') /\
  images page' = images page /\
  window page' = window page /\
  velocities page' !! index = Some (set_paused false v) /\
  (forall j w, j <> index -> velocities page !! j = Some w ->
     velocities page' !! j = Some w) /\
  (forall j w, velocities page !! j = Some w ->
     exists w', velocities page' !! j = Some w' /\
       dx w' = dx w /\ dy w' = dy w).
Proof.
  intros Himg Hv. simpl. rewrite Himg.
  pose proof (mouseleave_defined index (velocities page) v Hv) as E.
  rewrite E. simpl.
  pose proof (mouseleave_lookup _ _ _ index E) as Hat.
  rewrite Hv, decide_True in Hat by reflexivity.
  split; [reflexivity|]. split; [reflexivity|]. split; [reflexivity|].
  split; [exact Hat|]. split.
  - intros j w Hne Hw. rewrite (mouseleave_lookup _ _ _ j E), Hw.
    rewrite decide_False by exact Hne. reflexivity.
  - intros j w Hw. rewrite (mouseleave_lookup _ _ _ j E), Hw.
    case_decide; simpl; eexists; (split; [reflexivity|]); split; reflexivity.
Qed.

Lemma C7_resume_local_witness :
  let page' := step Clamping three_paused (MouseLeave 1) in
  images page' = images three_paused /\
  paused <$> velocities page' = [true; false; false].
Proof.
  destruct (C7_resume_local Clamping three_paused 1%nat (body_at 100 100)
              {| dx := 2; dy := -1; paused := true |})
    as (_ & Himgs & _); [reflexivity|reflexivity|].
  split; [exact Himgs|reflexivity].
Defined.




(** ** The readiness gate *)

Import ReadinessGate.

Lemma waitForInnerImages_same anchors :
  waitForInnerImages anchors = waitForAllImagesLoaded anchors.
Proof.
  unfold waitForInnerImages, waitForAllImagesLoaded.
  destruct (imgElements anchors); reflexivity.
Qed.

Lemma all_resolved_spec ps :
  all_resolved ps = true <-> forall k p, ps !! k = Some p -> p = Resolved.
Proof.
  unfold all_resolved. induction ps as [|q ps IH]; simpl.
  - split; [|reflexivity]. intros _ k p H. rewrite lookup_nil in H. discriminate.
  - rewrite andb_true_iff, IH. split.
    + intros [Hq Hps] [|k] p H; simpl in H.
      * inversion H; subst p. destruct q; [reflexivity|discriminate].
      * eapply Hps; eauto.
    + intros H. split.
      * rewrite (H 0%nat q); reflexivity.
      * intros k p Hk. apply (H (S k) p Hk).
Qed.

Lemma all_resolved_pending ps k :
  ps !! k = Some Pending -> all_resolved ps = false.
Proof.
  intros H. destruct (all_resolved ps) eqn:E; [|reflexivity].
  rewrite all_resolved_spec in E. specialize (E k Pending H). discriminate.
Qed.

Lemma dispatch_lookup ps s k :
  dispatch ps s !! k =
    if decide (k = target s) then (fun _ => Resolved) <$> ps !! k else ps !! k.
Proof.
  unfold dispatch. case_decide; subst.
  - destruct (ps !! target s) eqn:E.
    + apply list_lookup_insert_eq. eapply lookup_lt_Some; eauto.
    + simpl. apply lookup_ge_None. rewrite length_insert.
      apply lookup_ge_None in E. exact E.
  - apply list_lookup_insert_ne. auto.
Qed.

Lemma settle_snoc ps signals s :
  settle ps (signals ++ [s]) = dispatch (settle ps signals) s.
Proof. unfold settle. apply foldl_snoc. Qed.

Lemma settle_untouched ps signals k :
  Forall (fun s => target s <> k) signals ->
  settle ps signals !! k = ps !! k.
Proof.
  induction signals as [|s signals IH] using rev_ind; intros H; [reflexivity|].
  apply Forall_app in H. destruct H as [H Hs].
  apply Forall_cons in Hs. destruct Hs as [Hs _].
  rewrite settle_snoc, dispatch_lookup. rewrite decide_False by congruence.
  apply IH, H.
Qed.

Lemma settle_resolved ps signals k :
  ps !! k = Some Resolved -> settle ps signals !! k = Some Resolved.
Proof.
  induction signals as [|s signals IH] using rev_ind; intros H; [exact H|].
  rewrite settle_snoc, dispatch_lookup, (IH H).
  case_decide; reflexivity.
Qed.

Lemma settle_defined ps signals k p :
  ps !! k = Some p -> exists p', settle ps signals !! k = Some p'.
Proof.
  induction signals as [|s signals IH] using rev_ind; intros H; [eauto|].
  destruct (IH H) as [p' Hp'].
  rewrite settle_snoc, dispatch_lookup, Hp'.
  case_decide; simpl; eauto.
Qed.

Lemma settle_signalled ps signals k p s :
  ps !! k = Some p -> s ∈ signals -> target s = k ->
  settle ps signals !! k = Some Resolved.
Proof.
  induction signals as [|s' signals IH] using rev_ind; intros Hk Hin Ht.
  - apply elem_of_nil in Hin. destruct Hin.
  - rewrite settle_snoc, dispatch_lookup.
    apply elem_of_app in Hin. destruct Hin as [Hin|Hin].
    + rewrite (IH Hk Hin Ht). case_decide; reflexivity.
    + apply list_elem_of_singleton in Hin. subst s'.
      rewrite decide_True by congruence.
      destruct (settle_defined ps signals k p Hk) as [p' ->]. reflexivity.
Qed.

(** What the gate does right: an image that has loaded is settled on the
    spot, an element without an inner image is not waited for, no image
    at all completes at once, and a pending image is settled by whichever
    of [load] and [error] the browser fires. *)
Lemma gate_loaded_settled w : executor (loaded w) = Resolved.
Proof. reflexivity. Qed.

Lemma gate_skips_elements_without_image anchors :
  waitForAllImagesLoaded (None :: anchors) = waitForAllImagesLoaded anchors.
Proof. reflexivity. Qed.

Lemma gate_empty_completes :
  all_resolved (waitForAllImagesLoaded []) = true /\
  all_resolved (waitForInnerImages []) = true.
Proof. split; reflexivity. Qed.

Lemma gate_completes_when_signalled anchors signals :
  (forall k img, imgElements anchors !! k = Some img ->
     executor img = Pending ->
     exists s, s ∈ signals /\ target s = k) ->
  all_resolved (settle (waitForAllImagesLoaded anchors) signals) = true.
Proof.
  intros H. apply all_resolved_spec. intros k p Hp.
  unfold waitForAllImagesLoaded in *.
  change (map executor (imgElements anchors))
    with (executor <$> imgElements anchors) in *.
  destruct (imgElements anchors !! k) as [img|] eqn:Himg.
  - assert (Hk : (executor <$> imgElements anchors) !! k = Some (executor img)).
    { rewrite list_lookup_fmap, Himg. reflexivity. }
    destruct (executor img) eqn:Ex.
    + rewrite (settle_resolved _ signals k Hk) in Hp. congruence.
    + destruct (H k img Himg Ex) as (s & Hin & Ht).
      rewrite (settle_signalled _ signals k Pending s Hk Hin Ht) in Hp.
      congruence.
  - assert (Hk : (executor <$> imgElements anchors) !! k = None).
    { rewrite list_lookup_fmap, Himg. reflexivity. }
    exfalso. apply lookup_ge_None in Hk.
    assert (Hlen : length (settle (executor <$> imgElements anchors) signals)
                   = length (executor <$> imgElements anchors)).
    { clear. induction signals as [|s signals IH] using rev_ind; [reflexivity|].
      rewrite settle_snoc. unfold dispatch. rewrite length_insert. exact IH. }
    apply lookup_lt_Some in Hp. lia.
Qed.

(** C4 (where the code departs from it): the image of the [k]-th promise
    had already failed when the gate looked at it ([complete], natural
    width 0).  The gate does not count it settled: it subscribes to
    [load] and [error], and as long as neither is fired on that image
    again the completion never comes, whatever happens to the others. *)
Theorem C4_broken_image_is_waited_for (anchors : list Anchor) (k : nat)
    (signals : list signal) :
  imgElements anchors !! k = Some broken ->
  Forall (fun s => target s <> k) signals ->
  executor broken = Pending /\
  all_resolved (waitForAllImagesLoaded anchors) = false /\
  all_resolved (waitForInnerImages anchors) = false /\
  all_resolved (settle (waitForAllImagesLoaded anchors) signals) = false.
Proof.
  intros Hk Hs.
  assert (Hp : waitForAllImagesLoaded anchors !! k = Some Pending).
  { unfold waitForAllImagesLoaded.
    change (map executor (imgElements anchors))
      with (executor <$> imgElements anchors).
    rewrite list_lookup_fmap, Hk. reflexivity. }
  split; [reflexivity|].
  split; [apply (all_resolved_pending _ k Hp)|].
  split; [rewrite waitForInnerImages_same; apply (all_resolved_pending _ k Hp)|].
  apply (all_resolved_pending _ k).
  rewrite settle_untouched by exact Hs. exact Hp.
Qed.

Lemma C4_broken_image_is_waited_for_witness :
  let anchors := [Some (loaded 120); None; Some broken; Some loading] in
  let signals := [Load 2; Error 2; Load 0] in
  all_resolved (waitForAllImagesLoaded anchors) = false /\
  all_resolved (settle (waitForAllImagesLoaded anchors) signals) = false.
Proof.
  intros anchors signals.
  destruct (C4_broken_image_is_waited_for anchors 1%nat signals)
    as (_ & H0 & _ & H1).
  - reflexivity.
  - repeat constructor; discriminate.
  - split; assumption.
Defined.

(** * Further properties of the scripts *)

(** ** clamp *)

Lemma clamp_inverted n lo hi : hi < lo -> clamp n lo hi = lo.
Proof.
  intros H.
  assert (Qmin hi n <= hi) by apply Q.le_min_l.
  destruct (clamp_cases n lo hi) as [[_ E]|[[G _]|[G1 [G2 _]]]];
    [exact E|lra|lra].
Qed.

Lemma clamp_fixed n lo hi : lo <= n -> n <= hi -> clamp n lo hi == n.
Proof.
  intros H1 H2.
  destruct (clamp_cases n lo hi) as [[G E]|[[_ [G E]]|[_ [_ E]]]]; rewrite E.
  - assert (Qmin hi n == n) by (apply Q.min_r; exact H2). lra.
  - lra.
  - reflexivity.
Qed.

Lemma clamp_monotone n m lo hi : n <= m -> clamp n lo hi <= clamp m lo hi.
Proof.
  intros H. unfold clamp.
  apply Q.max_le_compat_l, Q.min_le_compat_l, H.
Qed.

(** X1: [clamp(n, min, max)] lies in [min, max] when min <= max, returns
    a number already in that range unchanged, never decreases when [n]
    grows, and returns [min] when the bounds are inverted. *)
Theorem X1_clamp_range_fixed_monotone (n m min max : Q) :
  (min <= max -> min <= clamp n min max /\ clamp n min max <= max) /\
  (min <= n -> n <= max -> clamp n min max == n) /\
  (n <= m -> clamp n min max <= clamp m min max) /\
  (max < min -> clamp n min max = min).
Proof.
  split; [apply clamp_between|].
  split; [apply clamp_fixed|].
  split; [apply clamp_monotone|apply clamp_inverted].
Qed.

Lemma X1_clamp_range_fixed_monotone_witness :
  (0 <= clamp 900 0 750 /\ clamp 900 0 750 <= 750) /\
  clamp 320 0 750 == 320 /\
  clamp (-4) 0 750 <= clamp 900 0 750 /\
  clamp 320 10 3 = 10.
Proof.
  split; [|split; [|split]].
  - apply (X1_clamp_range_fixed_monotone 900 900 0 750). discriminate.
  - apply (X1_clamp_range_fixed_monotone 320 320 0 750); discriminate.
  - apply (X1_clamp_range_fixed_monotone (-4) 900 0 750). discriminate.
  - apply (X1_clamp_range_fixed_monotone 320 320 10 3). reflexivity.
Defined.

(** ** The readiness gate under the browser's signals *)

Lemma settle_lookup ps signals k :
  settle ps signals !! k =
    if decide (Exists (fun s => target s = k) signals)
    then (fun _ => Resolved) <$> ps !! k
    else ps !! k.
Proof.
  induction signals as [|s signals IH] using rev_ind.
  - destruct (decide (Exists (fun s => target s = k) [])) as [H|H];
      [apply Exists_nil in H; destruct H|reflexivity].
  - rewrite settle_snoc, dispatch_lookup, IH.
    assert (Hsplit : Exists (fun s0 => target s0 = k) (signals ++ [s]) <->
                     Exists (fun s0 => target s0 = k) signals \/ target s = k).
    { rewrite Exists_app, Exists_cons, Exists_nil. tauto. }
    destruct (decide (Exists (fun s0 => target s0 = k) (signals ++ [s])))
      as [Hall|Hall];
      destruct (decide (k = target s)) as [Hk|Hk];
      destruct (decide (Exists (fun s0 => target s0 = k) signals)) as [He|He];
      try reflexivity;
      try (destruct (ps !! k); reflexivity);
      exfalso; rewrite Hsplit in Hall; intuition congruence.
Qed.

Lemma waiting_lookup anchors k :
  waitForAllImagesLoaded anchors !! k = executor <$> imgElements anchors !! k.
Proof.
  unfold waitForAllImagesLoaded.
  change (map executor (imgElements anchors))
    with (executor <$> imgElements anchors).
  apply list_lookup_fmap.
Qed.

(** X2: the gate completes exactly when every inner image that was not
    found loaded has since fired [load] or [error]; images found loaded
    and anchors without an image ask for nothing. *)
Theorem X2_gate_completes_exactly_when_signalled (anchors : list Anchor)
    (signals : list signal) :
  all_resolved (settle (waitForAllImagesLoaded anchors) signals) = true <->
  (forall k img, imgElements anchors !! k = Some img ->
     executor img = Pending ->
     exists s, s ∈ signals /\ target s = k).
Proof.
  split; [|apply gate_completes_when_signalled].
  intros Hall k img Himg Hpend.
  destruct (decide (Exists (fun s => target s = k) signals)) as [He|He].
  - apply Exists_exists in He. exact He.
  - exfalso.
    rewrite all_resolved_spec in Hall.
    specialize (Hall k Pending).
    rewrite settle_lookup, decide_False, waiting_lookup, Himg in Hall
      by exact He.
    simpl in Hall. rewrite Hpend in Hall.
    specialize (Hall eq_refl). discriminate.
Qed.

Lemma X2_gate_completes_exactly_when_signalled_witness :
  all_resolved
    (settle (waitForAllImagesLoaded [Some (loaded 120); None; Some loading])
       [Error 1]) = true.
Proof.
  apply (X2_gate_completes_exactly_when_signalled
           [Some (loaded 120); None; Some loading] [Error 1]).
  intros [|[|k]] img Himg Hpend; simpl in Himg.
  - inversion Himg; subst img. discriminate Hpend.
  - exists (Error 1). split; [apply list_elem_of_singleton|]; reflexivity.
  - rewrite lookup_nil in Himg. discriminate.
Defined.

(** X3: [waitForInnerImages] builds the same promises as
    [waitForAllImagesLoaded] for every roster, so its early return adds
    nothing; with no inner image at all both are complete from the start
    and stay so whatever is fired. *)
Theorem X3_both_gates_agree (anchors : list Anchor) (signals : list signal) :
  waitForInnerImages anchors = waitForAllImagesLoaded anchors /\
  (imgElements anchors = [] ->
   all_resolved (settle (waitForInnerImages anchors) signals) = true /\
   all_resolved (settle (waitForAllImagesLoaded anchors) signals) = true).
Proof.
  split; [apply waitForInnerImages_same|].
  intros Hnone. rewrite waitForInnerImages_same.
  assert (all_resolved (settle (waitForAllImagesLoaded anchors) signals) = true).
  { apply gate_completes_when_signalled.
    intros k img Hk. rewrite Hnone, lookup_nil in Hk. discriminate. }
  split; assumption.
Qed.

Lemma X3_both_gates_agree_witness :
  all_resolved (settle (waitForInnerImages [None; None]) [Load 0; Error 3])
    = true.
Proof.
  destruct (X3_both_gates_agree [None; None] [Load 0; Error 3]) as [_ H].
  destruct H as [H _]; [reflexivity|exact H].
Defined.

(** X4: the state of the gate depends only on which images have been
    signalled: the order of the signals and repeated signals make no
    difference, and a gate that has completed stays complete. *)
Theorem X4_gate_order_and_stability (ps : list promise)
    (first second : list signal) :
  settle ps (first ++ second) = settle ps (second ++ first) /\
  settle ps (first ++ first) = settle ps first /\
  (all_resolved (settle ps first) = true ->
   all_resolved (settle ps (first ++ second)) = true).
Proof.
  split; [|split].
  - apply list_eq. intros k. rewrite !settle_lookup.
    destruct (decide (Exists (fun s => target s = k) (first ++ second)))
      as [H|H].
    + rewrite decide_True; [reflexivity|].
      apply Exists_app in H. apply Exists_app. tauto.
    + rewrite decide_False; [reflexivity|].
      intros G. apply H. apply Exists_app in G. apply Exists_app. tauto.
  - apply list_eq. intros k. rewrite !settle_lookup.
    destruct (decide (Exists (fun s => target s = k) first)) as [H|H].
    + rewrite decide_True; [reflexivity|]. apply Exists_app. tauto.
    + rewrite decide_False; [reflexivity|].
      intros G. apply Exists_app in G. tauto.
  - rewrite !all_resolved_spec. intros Hall k p Hp.
    rewrite settle_lookup in Hp.
    destruct (decide (Exists (fun s => target s = k) (first ++ second)))
      as [H|H].
    + destruct (ps !! k); simpl in Hp; congruence.
    + apply (Hall k p). rewrite settle_lookup, decide_False; [exact Hp|].
      intros G. apply H. apply Exists_app. tauto.
Qed.

Lemma X4_gate_order_and_stability_witness :
  all_resolved
    (settle [Pending; Resolved; Pending] ([Load 0; Error 2] ++ [Load 5; Error 0]))
    = true.
Proof.
  destruct (X4_gate_order_and_stability [Pending; Resolved; Pending]
              [Load 0; Error 2] [Load 5; Error 0]) as (_ & _ & H).
  apply H. reflexivity.
Defined.

(** ** Parking *)

(** X5: parking an anchor and restoring it at initialisation gives back
    the inline transform it had, whatever an earlier [__savedTransform]
    held; restoring an anchor that was never parked clears its
    transform. *)
Theorem X5_parking_round_trip (el : Parking.Anchor) (text : string) :
  Parking.transform (Parking.restore (Parking.park el)) = Parking.transform el /\
  Parking.transform (Parking.park el) = Parking.offscreen /\
  Parking.transform
    (Parking.restore
       {| Parking.transform := text; Parking.savedTransform := None |})
    = EmptyString.
Proof.
  split; [|split; reflexivity].
  simpl. destruct (Parking.transform el); reflexivity.
Qed.

(** ** Initial placement and speed *)

Lemma initializeFrom_lookup ver win rnd images : forall k j img,
  images !! j = Some img ->
  (initializeFrom ver win rnd k images).1 !! j =
    Some (initializeElement ver win rnd (k + 6 * j) img).1 /\
  (initializeFrom ver win rnd k images).2 !! j =
    Some (initializeElement ver win rnd (k + 6 * j) img).2.
Proof.
  induction images as [|e rest IH]; intros k j img Hj.
  - rewrite lookup_nil in Hj. discriminate.
  - simpl. specialize (IH (k + 6)%nat).
    destruct (initializeFrom ver win rnd (k + 6) rest) as [rest' vs].
    destruct j as [|j]; simpl in *.
    + inversion Hj; subst e.
      replace (k + 0)%nat with k by lia. split; reflexivity.
    + replace (k + S (j + S (j + S (j + S (j + S (j + S (j + 0)))))))%nat
        with (k + 6 + 6 * j)%nat by lia.
      apply (IH j img Hj).
Qed.

Lemma initialize_lookup ver win rnd elements j img :
  elements !! j = Some img ->
  (initializePositionsAndVelocities ver win rnd elements).1 !! j =
    Some (initializeElement ver win rnd (6 * j) img).1 /\
  (initializePositionsAndVelocities ver win rnd elements).2 !! j =
    Some (initializeElement ver win rnd (6 * j) img).2.
Proof.
  intros H. apply (initializeFrom_lookup ver win rnd elements 0 j img H).
Qed.

Lemma draw_within_span r span :
  0 <= r -> r < 1 -> 0 < span -> 0 <= r * span /\ r * span < span.
Proof.
  intros H0 H1 Hs. split.
  - apply Qmult_le_0_compat; lra.
  - assert (r * span < 1 * span) by (apply Qmult_lt_compat_r; assumption).
    lra.
Qed.





Lemma quarter_is_random : forall k, 0 <= quarter k /\ quarter k < 1.
Proof. intros k. split; [discriminate|reflexivity]. Qed.


(** X7: script.js starts the [j]-th element at
    x = r * (innerWidth - rect.width) with no lower bound on the range:
    an element no wider than the viewport starts with
    0 <= x and x + rect.width <= innerWidth, one wider than the viewport
    starts at x <= 0, left of the viewport whenever r > 0. *)
Theorem X7_original_start (win : Window) (rnd : nat -> Q)
    (elements : list Element) (j : nat) (img : Element) :
  (forall k, 0 <= rnd k /\ rnd k < 1) ->
  elements !! j = Some img ->
  let w := rect_width (bounding img) in
  let x := rnd (6 * j)%nat * (innerWidth win - w) in
  let y := rnd (6 * j + 1)%nat
             * (innerHeight win - rect_height (bounding img)) in
  (initializePositionsAndVelocities Original win rnd elements).1 !! j =
    Some (set_position img x y) /\
  (w <= innerWidth win -> 0 <= x /\ x + w <= innerWidth win) /\
  (innerWidth win < w -> x <= 0 /\ (0 < rnd (6 * j)%nat -> x < 0)).
Proof.
  intros Hrnd Hj w x y.
  destruct (initialize_lookup Original win rnd elements j img Hj) as [Himg _].
  split; [rewrite Himg; reflexivity|].
  destruct (Hrnd (6 * j)%nat) as [A0 A1].
  split.
  - intros Hfit. unfold x.
    assert (0 <= rnd (6 * j)%nat * (innerWidth win - w))
      by (apply Qmult_le_0_compat; lra).
    assert (rnd (6 * j)%nat * (innerWidth win - w) <= 1 * (innerWidth win - w))
      by (apply Qmult_le_compat_r; lra).
    lra.
  - intros Hwide. unfold x.
    assert (E : rnd (6 * j)%nat * (innerWidth win - w)
                == - (rnd (6 * j)%nat * (w - innerWidth win))) by ring.
    split.
    + assert (0 <= rnd (6 * j)%nat * (w - innerWidth win))
        by (apply Qmult_le_0_compat; lra).
      lra.
    + intros Hpos.
      assert (0 < rnd (6 * j)%nat * (w - innerWidth win)).
      { rewrite <- (Qmult_0_l (w - innerWidth win)).
        apply Qmult_lt_compat_r; lra. }
      lra.
Qed.

Lemma X7_original_start_witness :
  let win := {| innerWidth := 30; innerHeight := 600 |} in
  exists x y,
    (initializePositionsAndVelocities Original win quarter [body_at 0 0]).1
      !! 0%nat = Some (set_position (body_at 0 0) x y) /\
    x < 0.
Proof.
  intros win.
  destruct (X7_original_start win quarter [body_at 0 0] 0%nat (body_at 0 0))
    as (E & _ & Hwide); [apply quarter_is_random|reflexivity|].
  do 2 eexists. split; [exact E|].
  destruct Hwide as [_ Hneg]; [reflexivity|]. apply Hneg. reflexivity.
Defined.

Lemma speedRange_positive ver : 0 < speedRange ver.
Proof. destruct ver; reflexivity. Qed.

Lemma speed_exact ver rnd k :
  0 <= rnd (k + 1)%nat ->
  Qabs (speed ver rnd k) == baseSpeed ver + rnd (k + 1)%nat * speedRange ver.
Proof.
  intros Hr. unfold speed. rewrite Qabs_Qmult, Qabs_sign, Qmult_1_l.
  pose proof (baseSpeed_positive ver) as Hb.
  pose proof (speedRange_nonneg ver) as Hs.
  assert (0 <= rnd (k + 1)%nat * speedRange ver)
    by (apply Qmult_le_0_compat; assumption).
  apply Qabs_pos. lra.
Qed.

Lemma reflected_speed v v' :
  (dx v' = dx v \/ dx v' = flip (dx v)) ->
  (dy v' = dy v \/ dy v' = flip (dy v)) ->
  Qabs (dx v') == Qabs (dx v) /\ Qabs (dy v') == Qabs (dy v).
Proof.
  intros [-> | ->] [-> | ->]; rewrite ?Qabs_flip; split; reflexivity.
Qed.

Lemma run_speed ver page events : forall j v',
  aligned page ->
  velocities (run ver page events) !! j = Some v' ->
  exists v, velocities page !! j = Some v /\
    Qabs (dx v') == Qabs (dx v) /\ Qabs (dy v') == Qabs (dy v).
Proof.
  induction events as [|ev events IH] using rev_ind; intros j v' Hal Hv'.
  - exists v'. split; [exact Hv'|]. split; reflexivity.
  - rewrite run_snoc in Hv'.
    destruct (step_speed ver _ ev j v' (run_aligned ver page events Hal) Hv')
      as (w & Hw & Hx & Hy).
    destruct (IH j w Hal Hw) as (v & Hv & Ex & Ey).
    destruct (reflected_speed w v' Hx Hy) as [Fx Fy].
    exists v. split; [exact Hv|]. split; [rewrite Fx|rewrite Fy]; assumption.
Qed.

Lemma initialized_velocity ver win rnd elements j v :
  velocities (initialized ver win rnd elements) !! j = Some v ->
  dx v = speed ver rnd (6 * j + 2) /\ dy v = speed ver rnd (6 * j + 4).
Proof.
  intros Hv. unfold initialized in Hv. simpl in Hv.
  destruct (elements !! j) as [img|] eqn:Hj.
  - destruct (initialize_lookup ver win rnd elements j img Hj) as [_ E].
    rewrite E in Hv. inversion Hv. split; reflexivity.
  - exfalso. apply lookup_ge_None in Hj. apply lookup_lt_Some in Hv.
    unfold initializePositionsAndVelocities in Hv.
    pose proof (initializeFrom_spec ver win rnd elements 0) as H.
    destruct (initializeFrom ver win rnd 0 elements) as [imgs vels].
    destruct H as (_ & L & _). simpl in Hv. lia.
Qed.

(** X8: the speed of a Body is drawn once.  In every page any version
    of the script reaches, the magnitude of the [j]-th dx is exactly
    baseSpeed + r * range for the draw r numbered 6j+3 (6j+5 for dy), so
    it is never below baseSpeed and never above baseSpeed + range. *)
Theorem X8_speed_drawn_once (ver : version) (win : Window) (rnd : nat -> Q)
    (elements : list Element) (events : list event) (j : nat) (v : Velocity) :
  (forall k, 0 <= rnd k /\ rnd k < 1) ->
  velocities (run ver (boot ver win rnd elements) events) !! j = Some v ->
  Qabs (dx v) == baseSpeed ver + rnd (6 * j + 3)%nat * speedRange ver /\
  Qabs (dy v) == baseSpeed ver + rnd (6 * j + 5)%nat * speedRange ver /\
  baseSpeed ver <= Qabs (dx v) /\
  baseSpeed ver <= Qabs (dy v) /\
  Qabs (dx v) <= baseSpeed ver + speedRange ver /\
  Qabs (dy v) <= baseSpeed ver + speedRange ver.
Proof.
  intros Hrnd Hv.
  destruct (boot_spec ver win rnd elements) as [Hal Hb].
  destruct (run_speed ver _ events j v Hal Hv) as (v1 & Hv1 & Ex1 & Ey1).
  destruct (Hb j v1 Hv1) as (v0 & Hv0 & Hx & Hy & _).
  destruct (reflected_speed v0 v1 Hx Hy) as [Ex0 Ey0].
  destruct (initialized_velocity ver win rnd elements j v0 Hv0) as [Dx Dy].
  assert (Fx : Qabs (dx v) == baseSpeed ver + rnd (6 * j + 3)%nat * speedRange ver).
  { rewrite Ex1, Ex0, Dx, speed_exact by apply Hrnd.
    replace (6 * j + 2 + 1)%nat with (6 * j + 3)%nat by lia. reflexivity. }
  assert (Fy : Qabs (dy v) == baseSpeed ver + rnd (6 * j + 5)%nat * speedRange ver).
  { rewrite Ey1, Ey0, Dy, speed_exact by apply Hrnd.
    replace (6 * j + 4 + 1)%nat with (6 * j + 5)%nat by lia. reflexivity. }
  pose proof (speedRange_positive ver) as Hs.
  destruct (Hrnd (6 * j + 3)%nat) as [A0 A1].
  destruct (Hrnd (6 * j + 5)%nat) as [B0 B1].
  destruct (draw_within_span _ (speedRange ver) A0 A1 Hs) as [A2 A3].
  destruct (draw_within_span _ (speedRange ver) B0 B1 Hs) as [B2 B3].
  split; [exact Fx|]. split; [exact Fy|].
  split; [rewrite Fx; lra|]. split; [rewrite Fy; lra|].
  split; [rewrite Fx; lra|rewrite Fy; lra].
Qed.

Lemma X8_speed_drawn_once_witness :
  let win := {| innerWidth := 800; innerHeight := 600 |} in
  exists v,
    velocities
      (run Original (boot Original win quarter [body_at 0 0])
         [AnimationFrame; AnimationFrame; MouseEnter 0]) !! 0%nat = Some v /\
    Qabs (dx v) == 1 + 0.25 * 0.5 /\ Qabs (dx v) <= 1 + 0.5.
Proof.
  intros win. eexists. split; [vm_compute; reflexivity|].
  match goal with
  | |- Qabs (dx ?v) == _ /\ _ =>
      destruct (X8_speed_drawn_once Original win quarter [body_at 0 0]
                  [AnimationFrame; AnimationFrame; MouseEnter 0] 0%nat v
                  quarter_is_random)
        as (Hx & _ & _ & _ & Hlt & _); [vm_compute; reflexivity|]
  end.
  split; [exact Hx|exact Hlt].
Defined.

(** ** Nothing throws and the loop keeps running *)

Lemma animate_looping ver page :
  aligned page -> looping (animate ver page) = true.
Proof.
  intros H. rewrite animate_spec by (right; exact H). reflexivity.
Qed.

Lemma step_looping ver page ev :
  aligned page -> looping page = true -> looping (step ver page ev) = true.
Proof.
  intros Hal Hl. destruct ev as [i|i|i| |win|layout]; simpl.
  - destruct (images page !! i); simpl; exact Hl.
  - destruct (images page !! i); simpl; [|exact Hl].
    destruct (mouseleave i (velocities page)); simpl; exact Hl.
  - destruct ver, (images page !! i); simpl; exact Hl.
  - rewrite Hl. apply animate_looping, Hal.
  - destruct ver; simpl; exact Hl.
  - exact Hl.
Qed.

Lemma run_looping ver page events :
  aligned page -> looping page = true ->
  looping (run ver page events) = true.
Proof.
  induction events as [|ev events IH] using rev_ind; intros Hal Hl; [exact Hl|].
  rewrite run_snoc. apply step_looping; [apply run_aligned, Hal|apply IH; assumption].
Qed.

Lemma run_lengths ver page events :
  aligned page ->
  length (images (run ver page events)) = length (images page) /\
  length (velocities (run ver page events)) = length (velocities page).
Proof.
  induction events as [|ev events IH] using rev_ind; intros Hal; [auto|].
  rewrite run_snoc.
  destruct (step_lengths ver _ ev (run_aligned ver page events Hal)) as [-> ->].
  apply IH, Hal.
Qed.

Lemma boot_shape ver win rnd elements :
  looping (boot ver win rnd elements) = true /\
  length (images (boot ver win rnd elements)) = length elements /\
  length (velocities (boot ver win rnd elements)) = length elements.
Proof.
  pose proof (initializeFrom_spec ver win rnd elements 0) as H.
  unfold boot, initializePositionsAndVelocities.
  destruct (initializeFrom ver win rnd 0 elements) as [imgs vels].
  destruct H as (L1 & L2 & _).
  destruct ver.
  - set (p := {| window := win; images := imgs; velocities := vels;
                 looping := true |}).
    assert (Hal : aligned p) by (unfold aligned; simpl; lia).
    destruct (animate_lengths Original p Hal) as [-> ->].
    split; [apply animate_looping, Hal|]. simpl. split; assumption.
  - simpl. unfold clampAllPositionsToViewport. rewrite length_map. auto.
  - simpl. unfold clampAllPositionsToViewport. rewrite length_map. auto.
Qed.

(** X9: in every page any version of the script reaches, the images and
    the roster both have exactly one entry per element, the frame loop
    is still scheduled, the loop of script.js returns without a
    TypeError, and the mouseleave handler of every element finds its
    roster entry; with no element at all the page stays empty. *)
Theorem X9_roster_aligned_and_loop_alive (ver : version) (win : Window)
    (rnd : nat -> Q) (elements : list Element) (events : list event) :
  let page := run ver (boot ver win rnd elements) events in
  looping page = true /\
  length (images page) = length elements /\
  length (velocities page) = length elements /\
  forEachUnguarded (animateReflecting (window page)) 0
      (images page) (velocities page)
    = Returned (forEachGuarded (animateReflecting (window page)) 0
                  (images page) (velocities page)) /\
  (forall i, (i < length elements)%nat ->
     is_Some (mouseleave i (velocities page))) /\
  (elements = [] -> images page = [] /\ velocities page = []).
Proof.
  intros page.
  destruct (boot_shape ver win rnd elements) as (Hl & L1 & L2).
  assert (Hal : aligned (boot ver win rnd elements)) by apply boot_spec.
  destruct (run_lengths ver _ events Hal) as [R1 R2].
  fold page in R1, R2. rewrite L1 in R1. rewrite L2 in R2.
  split; [apply run_looping; assumption|].
  split; [exact R1|]. split; [exact R2|]. split; [|split].
  - apply forEachUnguarded_total. simpl. lia.
  - intros i Hi. unfold mouseleave.
    destruct (velocities page !! i) as [v|] eqn:E; [eauto|].
    apply lookup_ge_None in E. lia.
  - intros ->. simpl in R1, R2.
    split; apply length_zero_iff_nil; assumption.
Qed.

Lemma X9_roster_aligned_and_loop_alive_witness :
  let page :=
    run Original
      (boot Original {| innerWidth := 800; innerHeight := 600 |} quarter
         [body_at 0 0; body_at 0 0])
      [AnimationFrame; MouseLeave 1; Resize {| innerWidth := 10; innerHeight := 10 |};
       AnimationFrame] in
  looping page = true /\ is_Some (mouseleave 1 (velocities page)).
Proof.
  intros page.
  destruct (X9_roster_aligned_and_loop_alive Original
              {| innerWidth := 800; innerHeight := 600 |} quarter
              [body_at 0 0; body_at 0 0]
              [AnimationFrame; MouseLeave 1;
               Resize {| innerWidth := 10; innerHeight := 10 |};
               AnimationFrame])
    as (Hl & _ & _ & _ & Hm & _).
  split; [exact Hl|]. apply (Hm 1%nat). simpl. lia.
Defined.

(** ** Pausing *)

Lemma animate_paused ver page i img v :
  ver <> Original \/ aligned page ->
  images page !! i = Some img ->
  velocities page !! i = Some v ->
  paused v = true ->
  images (animate ver page) !! i = Some img /\
  velocities (animate ver page) !! i = Some v.
Proof.
  intros Hok Himg Hv Hp. split.
  - rewrite animate_images by exact Hok.
    rewrite Himg. simpl. unfold moved. rewrite Hv, Hp. reflexivity.
  - rewrite animate_velocities by exact Hok.
    rewrite Hv. simpl. unfold bounced. rewrite Himg, Hp. reflexivity.
Qed.

Lemma run_cons ver page ev events :
  run ver page (ev :: events) = run ver (step ver page ev) events.
Proof. reflexivity. Qed.

(** X10: a paused Body is skipped by the frame loop: however many frames
    pass, its stored position, its layout figures and its roster entry
    are what they were. *)
Theorem X10_paused_body_frozen (ver : version) (n : nat) :
  forall (page : Page) (i : nat) (img : Element) (v : Velocity),
  ver <> Original \/ aligned page ->
  images page !! i = Some img ->
  velocities page !! i = Some v ->
  paused v = true ->
  images (run ver page (frames n)) !! i = Some img /\
  velocities (run ver page (frames n)) !! i = Some v.
Proof.
  induction n as [|n IH]; intros page i img v Hok Himg Hv Hp.
  - split; assumption.
  - unfold frames. simpl replicate. rewrite run_cons. fold (frames n).
    simpl step. destruct (looping page).
    + destruct (animate_paused ver page i img v Hok Himg Hv Hp) as [E1 E2].
      apply IH; try assumption.
      destruct Hok as [Hver|Hal]; [left; exact Hver|right].
      unfold aligned in *.
      destruct (animate_lengths ver page Hal) as [-> ->]. exact Hal.
    + apply IH; assumption.
Qed.

Lemma X10_paused_body_frozen_witness :
  images (run Clamping three_paused (frames 7)) !! 1%nat
    = Some (body_at 100 100) /\
  velocities (run Clamping three_paused (frames 7)) !! 1%nat
    = Some {| dx := 2; dy := -1; paused := true |}.
Proof.
  apply (X10_paused_body_frozen Clamping 7 three_paused 1%nat);
    [left; discriminate|reflexivity|reflexivity|reflexivity].
Defined.

(** X11: entering an element and leaving it again leaves no Body paused,
    also those that were paused before the pointer came; positions and
    speeds are untouched. *)
Theorem X11_enter_then_leave_resumes_all (ver : version) (page : Page)
    (i : nat) (img : Element) :
  images page !! i = Some img ->
  let page' := run ver page [MouseEnter i; MouseLeave i] in
  images page' = images page /\
  window page' = window page /\
  length (velocities page') = length (velocities page) /\
  forall j v, velocities page !! j = Some v ->
    velocities page' !! j = Some (set_paused false v).
Proof.
  intros Himg. unfold run. simpl. rewrite Himg. simpl. rewrite Himg.
  destruct (mouseleave i (mouseenter i (velocities page))) as [vels|] eqn:E;
    simpl.
  - split; [reflexivity|]. split; [reflexivity|]. split.
    + unfold mouseleave in E.
      destruct (mouseenter i (velocities page) !! i); [|discriminate].
      inversion E. rewrite length_insert. unfold mouseenter.
      apply length_imap.
    + intros j v Hv.
      rewrite (mouseleave_lookup _ _ _ j E), mouseenter_lookup, Hv. simpl.
      case_decide; [reflexivity|].
      apply Nat.eqb_neq in H. rewrite H. reflexivity.
  - split; [reflexivity|]. split; [reflexivity|]. split.
    + unfold mouseenter. apply length_imap.
    + intros j v Hv. rewrite mouseenter_lookup, Hv. simpl.
      unfold mouseleave in E. rewrite mouseenter_lookup in E.
      destruct (velocities page !! i) as [w|] eqn:Hi; [discriminate|].
      assert (j <> i) by (intros ->; congruence).
      apply Nat.eqb_neq in H. rewrite H. reflexivity.
Qed.

Lemma X11_enter_then_leave_resumes_all_witness :
  velocities (run Clamping three_paused [MouseEnter 2; MouseLeave 2]) !! 0%nat
    = Some {| dx := 1; dy := 1; paused := false |}.
Proof.
  destruct (X11_enter_then_leave_resumes_all Clamping three_paused 2%nat
              (body_at 200 200)) as (_ & _ & _ & H); [reflexivity|].
  apply (H 0%nat {| dx := 1; dy := 1; paused := true |}). reflexivity.
Defined.

(** ** Bouncing in the clamping loop *)

Lemma flip_opp d : flip d == - d.
Proof. unfold flip. ring. Qed.

Lemma exact_respects_values : respects_values exact_arith.
Proof. intros a a' b b' Ha Hb. simpl. rewrite Ha, Hb. reflexivity. Qed.

Lemma flip_respects a b : a == b -> flip a == flip b.
Proof. intros H. unfold flip. rewrite H. reflexivity. Qed.

Lemma flip_flip d : flip (flip d) == d.
Proof. unfold flip. ring. Qed.

Lemma clampStepAxisWith_from_inside A view size pos d :
  0 <= pos -> pos <= Qmax 0 (js_sub A view size) ->
  (d < 0 -> js_add A pos d < pos) ->
  (0 < d -> pos < js_add A pos d) ->
  flies_or_lands (Qmax 0 (js_sub A view size)) (js_add A pos d) d
    (Some (clampStepAxisWith A view size pos d).1)
    (clampStepAxisWith A view size pos d).2.
Proof.
  intros H0 H1 Hneg Hpos. unfold clampStepAxisWith, flies_or_lands.
  destruct (JS.le (js_add A pos d) 0) eqn:Hlo; simpl.
  - apply JS_le_spec in Hlo. right; left.
    split; [exact Hlo|]. split; [reflexivity|]. split; [reflexivity|].
    rewrite flip_opp.
    destruct (Qlt_le_dec 0 d) as [Hd|Hd]; [|lra].
    specialize (Hpos Hd). lra.
  - apply JS_le_false in Hlo.
    destruct (JS.ge (js_add A pos d) (Qmax 0 (js_sub A view size))) eqn:Hhi;
      simpl.
    + apply JS_ge_spec in Hhi. right; right.
      split; [exact Hlo|]. split; [exact Hhi|].
      split; [reflexivity|]. split; [reflexivity|].
      rewrite flip_opp.
      destruct (Qlt_le_dec d 0) as [Hd|Hd]; [|lra].
      specialize (Hneg Hd). lra.
    + apply JS_ge_false in Hhi. left. repeat split; assumption.
Qed.

(** X12: in the clamping loop, take a Body that starts the update inside
    its range and whose step is not absorbed by rounding (the computed
    sum left + dx lies on the side of left that dx points to).  The
    update either writes that sum and keeps dx, the sum being strictly
    inside, or it writes exactly the edge the sum reached and reverses
    dx, and the reversed dx does not point out of the range (it is >= 0
    on the near edge and <= 0 on the far edge).  Likewise for top and
    dy.  With exact sums this is the update of the clamping script as
    modelled above. *)
Theorem X12_clamping_bounce_points_inward (A : Arith) (win : Window)
    (img : Element) (v : Velocity) :
  let maxLeft :=
    Qmax 0 (js_sub A (innerWidth win) (rect_width (bounding img))) in
  let maxTop :=
    Qmax 0 (js_sub A (innerHeight win) (rect_height (bounding img))) in
  let after := animateClampingWith A win img v in
  (0 <= read_left img -> read_left img <= maxLeft ->
   (dx v < 0 -> js_add A (read_left img) (dx v) < read_left img) ->
   (0 < dx v -> read_left img < js_add A (read_left img) (dx v)) ->
   flies_or_lands maxLeft (js_add A (read_left img) (dx v)) (dx v)
     (style_left after.1) (dx after.2)) /\
  (0 <= read_top img -> read_top img <= maxTop ->
   (dy v < 0 -> js_add A (read_top img) (dy v) < read_top img) ->
   (0 < dy v -> read_top img < js_add A (read_top img) (dy v)) ->
   flies_or_lands maxTop (js_add A (read_top img) (dy v)) (dy v)
     (style_top after.1) (dy after.2)) /\
  animateClampingWith exact_arith win img v = animateClamping win img v.
Proof.
  simpl. unfold animateClampingWith.
  pose proof (clampStepAxisWith_from_inside A (innerWidth win)
                (rect_width (bounding img)) (read_left img) (dx v)) as Hl.
  pose proof (clampStepAxisWith_from_inside A (innerHeight win)
                (rect_height (bounding img)) (read_top img) (dy v)) as Ht.
  destruct (clampStepAxisWith A (innerWidth win) _ _ _) as [l dx'].
  destruct (clampStepAxisWith A (innerHeight win) _ _ _) as [t dy'].
  simpl in *. split; [exact Hl|]. split; [exact Ht|reflexivity].
Qed.

Lemma X12_clamping_bounce_points_inward_witness :
  let after :=
    animateClamping {| innerWidth := 800; innerHeight := 600 |}
      (body_at 2 300) {| dx := -2; dy := 1; paused := false |} in
  flies_or_lands 750 (2 + -2) (-2) (style_left after.1) (dx after.2) /\
  style_left after.1 = Some 0 /\ dx after.2 = 2.
Proof.
  intros after.
  destruct (X12_clamping_bounce_points_inward exact_arith
              {| innerWidth := 800; innerHeight := 600 |}
              (body_at 2 300) {| dx := -2; dy := 1; paused := false |})
    as (Hl & _ & Hex).
  split; [|split; reflexivity].
  unfold after. rewrite <- Hex. apply Hl.
  - discriminate.
  - discriminate.
  - intros _. reflexivity.
  - intros H. discriminate H.
Defined.

(** X13: in the clamping loop an unpaused Body at least as wide as the
    viewport is written back at left 0 on every update, whatever its
    position was, and its dx is reversed on every update (likewise a
    Body at least as tall, top 0 and dy). *)
Theorem X13_oversized_body_pinned (win : Window) (img : Element) (v : Velocity) :
  let after := animateClamping win img v in
  (innerWidth win <= rect_width (bounding img) ->
   style_left after.1 = Some 0 /\ dx after.2 = flip (dx v)) /\
  (innerHeight win <= rect_height (bounding img) ->
   style_top after.1 = Some 0 /\ dy after.2 = flip (dy v)).
Proof.
  assert (Haxis : forall view size pos d, view <= size ->
            clampStepAxis view size pos d = (0, flip d)).
  { intros view size pos d Hbig. unfold clampStepAxis.
    destruct (Qmax_0_cases (view - size)) as [[_ E]|[Hpos _]]; [|lra].
    rewrite E.
    destruct (JS.le (pos + d) 0) eqn:Hlo; [reflexivity|].
    apply JS_le_false in Hlo.
    assert (Hhi : JS.ge (pos + d) 0 = true) by (apply JS_ge_spec; lra).
    rewrite Hhi. reflexivity. }
  simpl. unfold animateClamping. split; intros Hbig.
  - rewrite (Haxis _ _ (read_left img) (dx v) Hbig).
    destruct (clampStepAxis (innerHeight win) _ _ _). split; reflexivity.
  - rewrite (Haxis _ _ (read_top img) (dy v) Hbig).
    destruct (clampStepAxis (innerWidth win) _ _ _). split; reflexivity.
Qed.

Lemma X13_oversized_body_pinned_witness :
  let after :=
    animateClamping {| innerWidth := 40; innerHeight := 600 |}
      (body_at 7 300) {| dx := 3; dy := 1; paused := false |} in
  style_left after.1 = Some 0 /\ dx after.2 = flip 3.
Proof.
  intros after.
  destruct (X13_oversized_body_pinned
              {| innerWidth := 40; innerHeight := 600 |}
              (body_at 7 300) {| dx := 3; dy := 1; paused := false |})
    as [H _].
  apply H. vm_compute. discriminate.
Defined.

(** ** Away from the boundary the two loops agree *)

Lemma read_stored_left img l :
  style_left img = Some l -> ~ l == 0 -> read_left img = l.
Proof.
  intros Hs Hz. unfold read_left. rewrite Hs. simpl.
  destruct (JS.is_zero l) eqn:E; [apply JS_is_zero_spec in E; contradiction|].
  unfold JS.or_num. rewrite E. reflexivity.
Qed.

Lemma read_stored_top img t :
  style_top img = Some t -> ~ t == 0 -> read_top img = t.
Proof.
  intros Hs Hz. unfold read_top. rewrite Hs. simpl.
  destruct (JS.is_zero t) eqn:E; [apply JS_is_zero_spec in E; contradiction|].
  unfold JS.or_num. rewrite E. reflexivity.
Qed.

(** X14: the clamping loop and the loop of script.js do the same thing
    to a Body whose stored coordinates are non-zero numbers whenever
    neither loop's edge test fires on the computed sums l' = left + dx
    and t' = top + dy, that is 0 < l' < max(0, innerWidth - w) and
    l' + w < innerWidth, and the same on the other axis: both write
    (l', t') and leave the velocity alone. *)
Theorem X14_loops_agree_when_no_edge_is_reached (A : Arith) (win : Window)
    (img : Element) (v : Velocity) (l t : Q) :
  style_left img = Some l -> style_top img = Some t ->
  ~ l == 0 -> ~ t == 0 ->
  let l' := js_add A l (dx v) in
  let t' := js_add A t (dy v) in
  0 < l' ->
  l' < Qmax 0 (js_sub A (innerWidth win) (rect_width (bounding img))) ->
  js_add A l' (rect_width (bounding img)) < innerWidth win ->
  0 < t' ->
  t' < Qmax 0 (js_sub A (innerHeight win) (rect_height (bounding img))) ->
  js_add A t' (rect_height (bounding img)) < innerHeight win ->
  animateClampingWith A win img v = (set_position img l' t', v) /\
  animateReflectingWith A win img v = (set_position img l' t', v).
Proof.
  intros Hl Ht Zl Zt l' t' L0 L1 L2 T0 T1 T2.
  unfold animateClampingWith, animateReflectingWith,
    clampStepAxisWith, reflectStepAxisWith.
  rewrite (read_stored_left img l Hl Zl), (read_stored_top img t Ht Zt).
  rewrite Hl, Ht. fold l' t'.
  assert (E1 : JS.le l' 0 = false) by (apply JS_le_false; exact L0).
  assert (E2 : JS.ge l' (Qmax 0 (js_sub A (innerWidth win)
                                   (rect_width (bounding img)))) = false)
    by (apply JS_ge_false; exact L1).
  assert (E3 : JS.ge (js_add A l' (rect_width (bounding img))) (innerWidth win)
               = false) by (apply JS_ge_false; exact L2).
  assert (F1 : JS.le t' 0 = false) by (apply JS_le_false; exact T0).
  assert (F2 : JS.ge t' (Qmax 0 (js_sub A (innerHeight win)
                                   (rect_height (bounding img)))) = false)
    by (apply JS_ge_false; exact T1).
  assert (F3 : JS.ge (js_add A t' (rect_height (bounding img)))
                 (innerHeight win) = false) by (apply JS_ge_false; exact T2).
  simpl. rewrite E1, E2, E3, F1, F2, F3. simpl.
  destruct v. split; reflexivity.
Qed.

Lemma X14_loops_agree_when_no_edge_is_reached_witness :
  animateClampingWith exact_arith {| innerWidth := 800; innerHeight := 600 |}
    (body_at 100 200) {| dx := 5; dy := -1; paused := false |}
  = animateReflectingWith exact_arith
      {| innerWidth := 800; innerHeight := 600 |}
      (body_at 100 200) {| dx := 5; dy := -1; paused := false |}.
Proof.
  destruct (X14_loops_agree_when_no_edge_is_reached exact_arith
              {| innerWidth := 800; innerHeight := 600 |}
              (body_at 100 200) {| dx := 5; dy := -1; paused := false |}
              100 200 eq_refl eq_refl) as [E1 E2];
    [discriminate|discriminate|reflexivity|reflexivity|reflexivity
    |reflexivity|reflexivity|reflexivity|].
  rewrite E1, E2. reflexivity.
Defined.

(** ** The loop of script.js beyond the far edge *)

Lemma reflect_trap_step A win img v p d x (b : bool) :
  respects_values A ->
  style_left img = Some x ->
  x == (if b then p else js_add A p d) ->
  dx v == (if b then d else flip d) ->
  innerWidth win <= js_add A (js_add A p d) (rect_width (bounding img)) ->
  js_add A (js_add A p d) (flip d) == p ->
  innerWidth win <= js_add A p (rect_width (bounding img)) ->
  exists x',
    style_left (animateReflectingWith A win img v).1 = Some x' /\
    x' == (if negb b then p else js_add A p d) /\
    dx (animateReflectingWith A win img v).2
      == (if negb b then d else flip d) /\
    bounding (animateReflectingWith A win img v).1 = bounding img /\
    paused (animateReflectingWith A win img v).2 = paused v.
Proof.
  intros HA Hx Ex Ed T1 T2 T3.
  unfold animateReflectingWith, reflectStepAxisWith. rewrite Hx.
  destruct (match style_top img with
            | Some p0 => _
            | None => _
            end) as [t dy'].
  simpl.
  exists (js_add A x (dx v)). split; [reflexivity|].
  assert (Ew : rect_width (bounding img) == rect_width (bounding img))
    by reflexivity.
  destruct b; simpl in *.
  - assert (E : js_add A x (dx v) == js_add A p d) by (apply HA; assumption).
    assert (Hhi : JS.ge (js_add A (js_add A x (dx v)) (rect_width (bounding img)))
                    (innerWidth win) = true).
    { apply JS_ge_spec. rewrite (HA _ _ _ _ E Ew). exact T1. }
    rewrite Hhi, orb_true_r.
    split; [exact E|]. split; [apply flip_respects, Ed|].
    split; reflexivity.
  - assert (E : js_add A x (dx v) == p).
    { rewrite (HA _ _ _ _ Ex Ed). exact T2. }
    assert (Hhi : JS.ge (js_add A (js_add A x (dx v)) (rect_width (bounding img)))
                    (innerWidth win) = true).
    { apply JS_ge_spec. rewrite (HA _ _ _ _ E Ew). exact T3. }
    rewrite Hhi, orb_true_r.
    split; [exact E|].
    split; [rewrite (flip_respects _ _ Ed); apply flip_flip|].
    split; reflexivity.
Qed.

(** X15: the loop of script.js (and of the copy that keeps it) traps an
    unpaused Body that sticks out past the right edge.  Let q be the
    computed sum left + dx; if the edge test fires at q and at left
    (q + w >= innerWidth and left + w >= innerWidth as computed) and the
    step back from q lands on left again (q + (-dx) = left as computed),
    then for every number n of calls of animate, with layout and
    viewport unchanged, the Body is at left with velocity dx when n is
    even and at q with velocity -dx when n is odd: dx is reversed on
    every frame and the Body's right side never comes back inside. *)
Theorem X15_reflecting_loop_traps_body_past_edge (A : Arith) (ver : version)
    (page : Page) (i : nat) (img : Element) (v : Velocity) (p : Q) (n : nat) :
  respects_values A ->
  ver <> Clamping ->
  aligned page ->
  images page !! i = Some img ->
  velocities page !! i = Some v ->
  paused v = false ->
  style_left img = Some p ->
  let d := dx v in
  let w := rect_width (bounding img) in
  let q := js_add A p d in
  innerWidth (window page) <= js_add A q w ->
  js_add A q (flip d) == p ->
  innerWidth (window page) <= js_add A p w ->
  exists img' v' x,
    images (Nat.iter n (animateWith A ver) page) !! i = Some img' /\
    velocities (Nat.iter n (animateWith A ver) page) !! i = Some v' /\
    paused v' = false /\
    style_left img' = Some x /\
    x == (if Nat.even n then p else q) /\
    dx v' == (if Nat.even n then d else flip d) /\
    innerWidth (window page) <= js_add A x w.
Proof.
  intros HA Hver Hal Himg Hv Hrun Hp d w q T1 T2 T3.
  assert (Hinv : exists img' v' x,
    images (Nat.iter n (animateWith A ver) page) !! i = Some img' /\
    velocities (Nat.iter n (animateWith A ver) page) !! i = Some v' /\
    paused v' = false /\
    style_left img' = Some x /\
    x == (if Nat.even n then p else q) /\
    dx v' == (if Nat.even n then d else flip d) /\
    bounding img' = bounding img /\
    window (Nat.iter n (animateWith A ver) page) = window page /\
    aligned (Nat.iter n (animateWith A ver) page)).
  { induction n as [|n IH].
    - exists img, v, p. simpl. repeat split; try assumption; reflexivity.
    - destruct IH as (img1 & v1 & x1 & E1 & E2 & P1 & S1 & X1 & D1 & B1 & W1 & A1).
      simpl Nat.iter.
      destruct (animateWith_unpaused A ver _ i img1 v1 (or_intror A1) E1 E2 P1)
        as [F1 F2].
      rewrite (engineWith_reflecting A ver _ Hver), W1 in F1, F2.
      destruct (animateWith_shape A ver _ A1) as [W2 A2].
      destruct (reflect_trap_step A (window page) img1 v1 p d x1
                  (Nat.even n) HA S1 X1 D1) as (x2 & S2 & X2 & D2 & B2 & P2).
      { rewrite B1. exact T1. }
      { exact T2. }
      { rewrite B1. exact T3. }
      do 3 eexists.
      split; [exact F1|]. split; [exact F2|].
      rewrite Nat.even_succ, <- Nat.negb_even.
      split; [congruence|]. split; [exact S2|].
      split; [exact X2|]. split; [exact D2|].
      split; [congruence|]. split; [congruence|exact A2]. }
  destruct Hinv as (img' & v' & x & E1 & E2 & P1 & S1 & X1 & D1 & _ & _ & _).
  exists img', v', x. repeat split; try assumption.
  assert (Ew : w == w) by reflexivity.
  rewrite (HA _ _ _ _ X1 Ew).
  destruct (Nat.even n); assumption.
Qed.

Lemma X15_reflecting_loop_traps_body_past_edge_witness :
  exists img' v' x,
    images (Nat.iter 9 (animateWith exact_arith Original) stuck_page) !! 0%nat
      = Some img' /\
    velocities (Nat.iter 9 (animateWith exact_arith Original) stuck_page)
      !! 0%nat = Some v' /\
    style_left img' = Some x /\
    x == 793 /\ dx v' == 5 /\ 800 <= x + 50.
Proof.
  destruct (X15_reflecting_loop_traps_body_past_edge exact_arith Original
              stuck_page 0%nat (body_at 798 10)
              {| dx := -5; dy := 1; paused := false |} 798 9)
    as (img' & v' & x & E1 & E2 & _ & E4 & E5 & E6 & E7).
  - apply exact_respects_values.
  - discriminate.
  - unfold aligned. simpl. lia.
  - reflexivity.
  - reflexivity.
  - reflexivity.
  - reflexivity.
  - discriminate.
  - reflexivity.
  - discriminate.
  - exists img', v', x. repeat split; assumption.
Defined.

(** ** The clamping script keeps every Body on screen *)

Lemma clamping_step_image page ev i img' :
  images (step Clamping page ev) !! i = Some img' ->
  exists img, images page !! i = Some img /\
    ((img' = img /\ window (step Clamping page ev) = window page) \/
     (exists v, img' = (animateClamping (window page) img v).1 /\
                window (step Clamping page ev) = window page) \/
     img' = clampElement (window (step Clamping page ev)) img \/
     (exists layout, ev = Reflow layout /\ img' = relayout layout i img)).
Proof.
  assert (Hid : images page !! i = Some img' ->
    exists img, images page !! i = Some img /\
      ((img' = img /\ window page = window page) \/
       (exists v, img' = (animateClamping (window page) img v).1 /\
                  window page = window page) \/
       img' = clampElement (window page) img \/
       (exists layout, ev = Reflow layout /\ img' = relayout layout i img))).
  { intros H. exists img'. split; [exact H|]. left. split; reflexivity. }
  destruct ev as [k|k|k| |win|layout]; cbn [step].
  - destruct (images page !! k); exact Hid.
  - destruct (images page !! k); [|exact Hid].
    destruct (mouseleave k (velocities page)); exact Hid.
  - destruct (images page !! k); exact Hid.
  - destruct (looping page); [|exact Hid].
    rewrite animate_images by (left; discriminate).
    rewrite animate_spec by (left; discriminate). cbn [window engine].
    destruct (images page !! i) as [img|]; [|discriminate].
    simpl. intros H. inversion H; subst img'. exists img. split; [reflexivity|].
    unfold moved. destruct (velocities page !! i) as [v|].
    + destruct (paused v).
      * left. split; reflexivity.
      * right; left. exists v. split; reflexivity.
    + left. split; reflexivity.
  - simpl. unfold clampAllPositionsToViewport.
    change (map (clampElement win) (images page))
      with (clampElement win <$> images page).
    rewrite list_lookup_fmap.
    destruct (images page !! i) as [img|]; [|discriminate].
    simpl. intros H. inversion H. exists img. split; [reflexivity|].
    right; right; left. reflexivity.
  - simpl. rewrite list_lookup_imap.
    destruct (images page !! i) as [img|]; [|discriminate].
    simpl. intros H. inversion H. exists img. split; [reflexivity|].
    right; right; right. exists layout. split; reflexivity.
Qed.

Lemma contained_nonneg view size pos :
  contained view size pos -> exists p, pos = Some p /\ 0 <= p.
Proof. intros (p & Hp & H0 & _). eauto. Qed.

Lemma boot_clamping_image win rnd elements i img :
  images (boot Clamping win rnd elements) !! i = Some img ->
  exists e x y, elements !! i = Some e /\
    img = clampElement win (set_position e x y).
Proof.
  intros H.
  pose proof (initializeFrom_spec Clamping win rnd elements 0) as Hs.
  unfold boot, initializePositionsAndVelocities in H.
  destruct (elements !! i) as [e|] eqn:He.
  - destruct (initializeFrom_lookup Clamping win rnd elements 0 i e He)
      as [E _].
    destruct (initializeFrom Clamping win rnd 0 elements) as [imgs vels].
    simpl in H, E. unfold clampAllPositionsToViewport in H.
    change (map (clampElement win) imgs) with (clampElement win <$> imgs) in H.
    rewrite list_lookup_fmap, E in H. simpl in H. inversion H.
    do 3 eexists. split; reflexivity.
  - exfalso. apply lookup_ge_None in He.
    destruct (initializeFrom Clamping win rnd 0 elements) as [imgs vels].
    destruct Hs as (L & _ & _). simpl in H.
    apply lookup_lt_Some in H. unfold clampAllPositionsToViewport in H.
    rewrite length_map in H. lia.
Qed.

Lemma clamp_size_measurable img :
  measurable img ->
  clamp_width img = rect_width (bounding img) /\
  clamp_height img = rect_height (bounding img).
Proof.
  intros [Hw Hh]. unfold clamp_width, clamp_height, JS.or_num.
  destruct (JS.is_zero (rect_width (bounding img))) eqn:Ew;
    [apply JS_is_zero_spec in Ew; contradiction|].
  destruct (JS.is_zero (rect_height (bounding img))) eqn:Eh;
    [apply JS_is_zero_spec in Eh; contradiction|].
  split; reflexivity.
Qed.

(** The Body is inside the viewport of the page, by the size the
    browser reports for it. *)
Lemma clampElement_inside win img :
  measurable img ->
  contained (innerWidth win) (rect_width (bounding img))
    (style_left (clampElement win img)) /\
  contained (innerHeight win) (rect_height (bounding img))
    (style_top (clampElement win img)).
Proof.
  intros Hm. destruct (clamp_size_measurable img Hm) as [Ew Eh].
  destruct (clampElement_contained win img) as [Hl Ht].
  rewrite Ew in Hl. rewrite Eh in Ht. split; assumption.
Qed.

Lemma animateClamping_bounding win img v :
  bounding (animateClamping win img v).1 = bounding img.
Proof.
  unfold animateClamping.
  destruct (clampStepAxis (innerWidth win) _ _ _).
  destruct (clampStepAxis (innerHeight win) _ _ _). reflexivity.
Qed.

(** X16: as long as the layout does not change and every element has a
    non-zero measured size, the clamping script keeps every Body,
    paused or not, inside the current viewport in every page it
    reaches: 0 <= left <= max(0, innerWidth - w) and
    0 <= top <= max(0, innerHeight - h) after start-up, after every
    frame, every pointer event and every resize. *)
Theorem X16_clamping_script_keeps_bodies_inside (win : Window)
    (rnd : nat -> Q) (elements : list Element) (events : list event) :
  Forall measurable elements ->
  Forall (fun ev => is_reflow ev = false) events ->
  forall i img,
    images (run Clamping (boot Clamping win rnd elements) events) !! i
      = Some img ->
    measurable img /\
    contained
      (innerWidth (window (run Clamping (boot Clamping win rnd elements) events)))
      (rect_width (bounding img)) (style_left img) /\
    contained
      (innerHeight (window (run Clamping (boot Clamping win rnd elements) events)))
      (rect_height (bounding img)) (style_top img).
Proof.
  intros Hm. induction events as [|ev events IH] using rev_ind; intros Hev i img Hi.
  - simpl in *.
    destruct (boot_clamping_image win rnd elements i img Hi)
      as (e & x & y & He & ->).
    assert (Hme : measurable (set_position e x y)).
    { rewrite Forall_lookup in Hm. apply (Hm i e He). }
    split; [exact Hme|].
    assert (Hw : window (boot Clamping win rnd elements) = win).
    { unfold boot.
      destruct (initializePositionsAndVelocities Clamping win rnd elements).
      reflexivity. }
    rewrite Hw. apply (clampElement_inside win (set_position e x y) Hme).
  - apply Forall_app in Hev. destruct Hev as [Hev Hlast].
    apply Forall_cons in Hlast. destruct Hlast as [Hlast _].
    rewrite run_snoc in *.
    set (page := run Clamping (boot Clamping win rnd elements) events) in *.
    destruct (clamping_step_image page ev i img Hi)
      as (img0 & H0 & [[-> Hw]|[(v & -> & Hw)|[->|(layout & -> & _)]]]).
    + rewrite Hw. apply (IH Hev i img0 H0).
    + rewrite Hw. destruct (IH Hev i img0 H0) as (Hm0 & _ & _).
      unfold measurable.
      rewrite (animateClamping_bounding (window page) img0 v).
      split; [exact Hm0|].
      apply (animateClamping_contained (window page) img0 v).
    + destruct (IH Hev i img0 H0) as (Hm0 & _ & _).
      split; [exact Hm0|]. apply (clampElement_inside _ img0 Hm0).
    + discriminate Hlast.
Qed.

Lemma X16_clamping_script_keeps_bodies_inside_witness :
  let page :=
    run Clamping
      (boot Clamping {| innerWidth := 800; innerHeight := 600 |} quarter
         [body_at 0 0; body_at 0 0])
      [AnimationFrame; MouseEnter 1;
       Resize {| innerWidth := 120; innerHeight := 90 |}; AnimationFrame] in
  exists img,
    images page !! 1%nat = Some img /\
    contained 120 50 (style_left img) /\ contained 90 50 (style_top img).
Proof.
  intros page.
  assert (Hm : Forall measurable [body_at 0 0; body_at 0 0])
    by (repeat constructor; discriminate).
  assert (Hev : Forall (fun ev => is_reflow ev = false)
                  [AnimationFrame; MouseEnter 1;
                   Resize {| innerWidth := 120; innerHeight := 90 |};
                   AnimationFrame])
    by (repeat constructor).
  eexists. split; [vm_compute; reflexivity|].
  match goal with
  | |- contained _ _ (style_left ?x) /\ _ =>
      destruct (X16_clamping_script_keeps_bodies_inside
                  {| innerWidth := 800; innerHeight := 600 |} quarter
                  _ _ Hm Hev 1%nat x)
        as (_ & Hl & Ht); [vm_compute; reflexivity|]
  end.
  split; [exact Hl|exact Ht].
Defined.

(** X17: whatever happens to the page, layout changes included, the
    clamping script never leaves a Body with a negative or non-numeric
    stored coordinate. *)
Theorem X17_clamping_script_never_stores_negative (win : Window)
    (rnd : nat -> Q) (elements : list Element) (events : list event)
    (i : nat) (img : Element) :
  images (run Clamping (boot Clamping win rnd elements) events) !! i
    = Some img ->
  on_screen_origin img.
Proof.
  revert i img.
  assert (Hclamp : forall w e, on_screen_origin (clampElement w e)).
  { intros w e. destruct (clampElement_contained w e) as [Hl Ht].
    destruct (contained_nonneg _ _ _ Hl) as (l & El & Pl).
    destruct (contained_nonneg _ _ _ Ht) as (t & Et & Pt).
    exists l, t. repeat split; assumption. }
  induction events as [|ev events IH] using rev_ind; intros i img Hi.
  - simpl in Hi.
    destruct (boot_clamping_image win rnd elements i img Hi)
      as (e & x & y & _ & ->).
    apply Hclamp.
  - rewrite run_snoc in Hi.
    destruct (clamping_step_image _ ev i img Hi)
      as (img0 & H0 & [[-> _]|[(v & -> & _)|[->|(layout & _ & ->)]]]).
    + apply (IH i img0 H0).
    + destruct (animateClamping_contained
                  (window (run Clamping (boot Clamping win rnd elements) events))
                  img0 v) as [Hl Ht].
      destruct (contained_nonneg _ _ _ Hl) as (l & El & Pl).
      destruct (contained_nonneg _ _ _ Ht) as (t & Et & Pt).
      exists l, t. repeat split; assumption.
    + apply Hclamp.
    + apply (IH i img0 H0).
Qed.

Lemma X17_clamping_script_never_stores_negative_witness :
  exists img,
    images
      (run Clamping
         (boot Clamping {| innerWidth := 30; innerHeight := 20 |} quarter
            [body_at (-40) (-40)])
         [Reflow (fun _ _ => ({| rect_left := -9; rect_top := -9;
                                 rect_width := 0; rect_height := 0 |}, (0, 0)));
          AnimationFrame]) !! 0%nat = Some img /\
    on_screen_origin img.
Proof.
  eexists. split; [vm_compute; reflexivity|].
  apply (X17_clamping_script_never_stores_negative
           {| innerWidth := 30; innerHeight := 20 |} quarter
           [body_at (-40) (-40)]
           [Reflow (fun _ _ => ({| rect_left := -9; rect_top := -9;
                                   rect_width := 0; rect_height := 0 |}, (0, 0)));
            AnimationFrame] 0%nat).
  vm_compute. reflexivity.
Defined.

(** ** Resizing *)

Lemma clamp_unit_spec p hi :
  0 <= hi ->
  (p <= 0 /\ clamp p 0 hi == 0) \/
  (0 < p /\ hi <= p /\ clamp p 0 hi == hi) \/
  (0 < p /\ p < hi /\ clamp p 0 hi == p).
Proof.
  intros Hhi.
  destruct (clamp_cases p 0 hi) as [[G E]|[[G1 [G2 E]]|[G1 [G2 E]]]]; rewrite E.
  - destruct (Q.min_spec hi p) as [[Hlt Em]|[Hle Em]]; rewrite Em in G.
    + right; left. repeat split; lra.
    + left. split; [exact G|reflexivity].
  - destruct (Q.min_spec hi p) as [[Hlt Em]|[Hle Em]]; rewrite Em in G1.
    + lra.
    + right; left. repeat split; lra.
  - right; right. repeat split; lra.
Qed.

Lemma clampAxis_fits view size p :
  0 <= p -> p <= Qmax 0 (view - size) -> clampAxis view size p == p.
Proof.
  intros H0 H1. unfold clampAxis. apply clamp_fixed; assumption.
Qed.

(** X18: a resize of the reworked scripts does not move a Body that
    fits the new viewport: if its stored coordinates are non-zero
    numbers with 0 <= left <= max(0, innerWidth - w) and
    0 <= top <= max(0, innerHeight - h), the coordinates written back
    equal the stored ones. *)
Theorem X18_resize_leaves_fitting_body (ver : version) (page : Page)
    (win : Window) (i : nat) (img : Element) (l t : Q) :
  ver <> Original ->
  images page !! i = Some img ->
  style_left img = Some l -> style_top img = Some t ->
  ~ l == 0 -> ~ t == 0 ->
  0 <= l -> l <= Qmax 0 (innerWidth win - clamp_width img) ->
  0 <= t -> t <= Qmax 0 (innerHeight win - clamp_height img) ->
  exists img' l' t',
    images (step ver page (Resize win)) !! i = Some img' /\
    style_left img' = Some l' /\ style_top img' = Some t' /\
    l' == l /\ t' == t /\
    bounding img' = bounding img.
Proof.
  intros Hver Himg Hl Ht Zl Zt L0 L1 T0 T1.
  exists (clampElement win img). do 2 eexists.
  split.
  { assert (E : images (step ver page (Resize win)) =
                clampAllPositionsToViewport win (images page)).
    { destruct ver; [congruence| |]; reflexivity. }
    rewrite E. unfold clampAllPositionsToViewport.
    change (map (clampElement win) (images page))
      with (clampElement win <$> images page).
    rewrite list_lookup_fmap, Himg. reflexivity. }
  split; [reflexivity|]. split; [reflexivity|].
  rewrite (read_stored_left img l Hl Zl), (read_stored_top img t Ht Zt).
  split; [apply clampAxis_fits; assumption|].
  split; [apply clampAxis_fits; assumption|reflexivity].
Qed.

Lemma X18_resize_leaves_fitting_body_witness :
  exists img' l' t',
    images (step Clamping (one_body 100 200 5 1)
              (Resize {| innerWidth := 400; innerHeight := 300 |})) !! 0%nat
      = Some img' /\
    style_left img' = Some l' /\ style_top img' = Some t' /\
    l' == 100 /\ t' == 200 /\
    bounding img' = bounding (body_at 100 200).
Proof.
  apply (X18_resize_leaves_fitting_body Clamping (one_body 100 200 5 1)
           {| innerWidth := 400; innerHeight := 300 |} 0%nat
           (body_at 100 200) 100 200);
    try reflexivity; try discriminate.
Defined.

(** X19: on positions, clamping to a viewport and then to a narrower one
    is clamping to the narrower one, and clamping to a viewport and then
    to a wider one leaves the position where the first put it. *)
Theorem X19_successive_clamps (narrow wide size p : Q) :
  narrow <= wide ->
  clampAxis narrow size (clampAxis wide size p) == clampAxis narrow size p /\
  clampAxis wide size (clampAxis narrow size p) == clampAxis narrow size p.
Proof.
  intros Hle.
  assert (Hmono : Qmax 0 (narrow - size) <= Qmax 0 (wide - size))
    by (apply Q.max_le_compat_l; lra).
  pose proof (Qmax_0_nonneg (narrow - size)) as Hn.
  pose proof (Qmax_0_nonneg (wide - size)) as Hw.
  unfold clampAxis.
  set (hn := Qmax 0 (narrow - size)) in *.
  set (hw := Qmax 0 (wide - size)) in *.
  destruct (clamp_unit_spec p hn Hn) as [[A Ea]|[[A1 [A2 Ea]]|[A1 [A2 Ea]]]];
    destruct (clamp_unit_spec p hw Hw) as [[B Eb]|[[B1 [B2 Eb]]|[B1 [B2 Eb]]]];
    try lra;
    (split;
     [ destruct (clamp_unit_spec (clamp p 0 hw) hn Hn)
         as [[C Ec]|[[C1 [C2 Ec]]|[C1 [C2 Ec]]]]; lra
     | destruct (clamp_unit_spec (clamp p 0 hn) hw Hw)
         as [[C Ec]|[[C1 [C2 Ec]]|[C1 [C2 Ec]]]]; lra ]).
Qed.

Lemma X19_successive_clamps_witness :
  clampAxis 320 50 (clampAxis 800 50 5000) == clampAxis 320 50 5000 /\
  clampAxis 800 50 (clampAxis 320 50 5000) == clampAxis 320 50 5000.
Proof. apply (X19_successive_clamps 320 800 50 5000). discriminate. Defined.

(** ** The loop of script.js from inside the viewport *)




